(** * mltsp.custom_feature_tools: dependency extraction, scheduling and
      isolated execution of custom feature scripts

    A shallow embedding of [src/mltsp/custom_feature_tools.py].  Python
    dictionaries whose iteration order is irrelevant are [gmap]s, the
    declaration table (whose key order drives the scheduler) is an
    insertion-ordered association list, [list(set(...))] is [elements] of
    a [gset] (an order the proofs never look at), exceptions are values of
    [pyexn], and the [while] loop of the scheduler, which need not
    terminate, takes fuel. *)

From Stdlib Require Import Ascii.
From stdpp Require Import base option list strings gmap sets fin_maps.

(** ** Python runtime: exceptions and results *)

(** The two exception classes defined by the module, the builtin
    [Exception] it raises itself, and [BuiltinError cls value] for every
    exception raised by the interpreter or by code outside the module
    (AttributeError, KeyError, OSError, ...). *)
Inductive pyexn : Type :=
  | MissingRequiredParameterError (value : string)
  | MissingRequiredReturnKeyError (value : string)
  | Exception (value : string)
  | BuiltinError (cls : string) (value : string).

Definition exn_class (e : pyexn) : string :=
  match e with
  | MissingRequiredParameterError _ => "MissingRequiredParameterError"
  | MissingRequiredReturnKeyError _ => "MissingRequiredReturnKeyError"
  | Exception _ => "Exception"
  | BuiltinError cls _ => cls
  end.

(** [str(e)]: both classes of the module return [str(self.value)]. *)
Definition exn_str (e : pyexn) : string :=
  match e with
  | MissingRequiredParameterError v => v
  | MissingRequiredReturnKeyError v => v
  | Exception v => v
  | BuiltinError _ v => v
  end.

Inductive result (A : Type) : Type :=
  | Return (a : A)
  | Raise (e : pyexn).
Arguments Return {A} a.
Arguments Raise {A} e.

(** Result of a computation that runs a loop on fuel. *)
Inductive outcome (A : Type) : Type :=
  | Returns (a : A)
  | Raises (e : pyexn)
  | OutOfFuel.
Arguments Returns {A} a.
Arguments Raises {A} e.
Arguments OutOfFuel {A}.

(** Computations over an explicit world [W]: an exception keeps the world
    reached when it was raised. *)
Definition eff (W A : Type) : Type := W → result A * W.

Definition eff_ret {W A} (a : A) : eff W A := λ w, (Return a, w).
Definition eff_raise {W A} (e : pyexn) : eff W A := λ w, (Raise e, w).
Definition eff_bind {W A B} (c : eff W A) (k : A → eff W B) : eff W B :=
  λ w, match c w with
       | (Return a, w') => k a w'
       | (Raise e, w') => (Raise e, w')
       end.

Notation "'let*' x ':=' c 'in' k" := (eff_bind c (λ x, k))
  (at level 10, x name, c at level 100, k at level 200, only parsing).

(** ** Text primitives *)

Definition nl : string := String "010"%char "".

(** [sub in s] on strings. *)
Fixpoint py_in (sub s : string) : bool :=
  String.prefix sub s ||
  match s with
  | EmptyString => false
  | String _ s' => py_in sub s'
  end.

(** A text is a Python 3 [str] whose characters have code points below
    256, one [ascii] for each.  [c.isspace()] holds of these ten:
    U+0009 to U+000D, U+001C to U+001F, U+0020, U+0085 and U+00A0. *)
Definition py_isspace (c : ascii) : bool :=
  let n := nat_of_ascii c in
  ((9 <=? n) && (n <=? 13)) || ((28 <=? n) && (n <=? 32)) ||
  (n =? 133) || (n =? 160).

(** [s.lstrip()], [s.rstrip()] and [s.strip()] take off the characters
    of a given class; without argument the class is [isspace]. *)
Fixpoint lstrip_of (blank : ascii → bool) (s : string) : string :=
  match s with
  | EmptyString => EmptyString
  | String c s' => if blank c then lstrip_of blank s' else s
  end.

Definition strip_of (blank : ascii → bool) (s : string) : string :=
  String.rev (lstrip_of blank (String.rev (lstrip_of blank s))).

Definition lstrip : string → string := lstrip_of py_isspace.

Definition rstrip (s : string) : string := String.rev (lstrip (String.rev s)).

Definition strip (s : string) : string := rstrip (lstrip s).

(** [open(path, "r")] reads with universal newlines: a carriage return
    followed by a line feed, and a carriage return alone, both reach the
    program as one line feed. *)
Fixpoint universal_newlines (s : string) : string :=
  match s with
  | EmptyString => EmptyString
  | String c s' =>
      if decide (c = "013"%char) then
        match s' with
        | String c' s'' =>
            if decide (c' = "010"%char) then String "010"%char (universal_newlines s'')
            else String "010"%char (universal_newlines s')
        | EmptyString => String "010"%char EmptyString
        end
      else String c (universal_newlines s')
  end.

(** [f.readlines()]: the text as the program receives it, cut after every
    line feed, each line keeping its line feed; a last line without one is
    kept as it is.  [script_text] is the content of the file. *)
Fixpoint readlines_go (cur : string) (s : string) : list string :=
  match s with
  | EmptyString => if decide (cur = "") then [] else [String.rev cur]
  | String c s' =>
      if decide (c = "010"%char)
      then String.rev (String c cur) :: readlines_go "" s'
      else readlines_go (String c cur) s'
  end.

Definition readlines (text : string) : list string :=
  readlines_go "" (universal_newlines text).

(** ** The [parse] package on the two formats the module uses

    [parse(format, string)] of the third-party [parse] package turns the
    format into a regular expression: a literal part matches itself
    without regard to case, an untyped field [{name}] is the lazy group
    [(.+?)], and the whole string has to match.  [None] is Python's
    [None]; a success is the [named] dictionary of the result. *)

Inductive piece : Type :=
  | Lit (s : string)
  | Field (name : string).

Definition ascii_lower (c : ascii) : ascii :=
  let n := nat_of_ascii c in
  if (65 <=? n) && (n <=? 90) then ascii_of_nat (n + 32) else c.

Fixpoint strip_lit (lit s : string) : option string :=
  match lit, s with
  | EmptyString, _ => Some s
  | String a lit', String b s' =>
      if decide (ascii_lower a = ascii_lower b) then strip_lit lit' s' else None
  | String _ _, EmptyString => None
  end.

Fixpoint match_pieces (ps : list piece) (s : string)
  : option (gmap string string) :=
  match ps with
  | [] => if decide (s = "") then Some ∅ else None
  | Lit l :: ps' =>
      match strip_lit l s with
      | Some rest => match_pieces ps' rest
      | None => None
      end
  | Field name :: ps' =>
      (fix lazy (taken rest : string) {struct rest} :=
         match rest with
         | EmptyString => None
         | String c rest' =>
             match match_pieces ps' rest' with
             | Some named => Some (<[name := String.rev (String c taken)]> named)
             | None => lazy (String c taken) rest'
             end
         end) "" s
  end.

Definition parse (format : list piece) (s : string)
  : option (gmap string string) := match_pieces format s.

(** ["@myFeature(requires={requires}, provides={provides})"] *)
Definition myFeature_format : list piece :=
  [Lit "@myFeature(requires="; Field "requires"; Lit ", provides=";
   Field "provides"; Lit ")"].

(** ["def {funcname}({args}):"] *)
Definition def_format : list piece :=
  [Lit "def "; Field "funcname"; Lit "("; Field "args"; Lit "):"].

(** ** Declaration table *)

(** The value stored for one function: [{"requires": ..., "provides": ...}]. *)
Record reqs_provs : Type := ReqsProvs {
  requires : list string;
  provides : list string;
}.

(** [fnames_req_prov_dict]: a dictionary whose key order is observed by
    [list(d.keys())]. *)
Definition decl_table : Type := list (string * reqs_provs).

Fixpoint dict_setitem (d : decl_table) (k : string) (v : reqs_provs) : decl_table :=
  match d with
  | [] => [(k, v)]
  | (k', v') :: d' =>
      if decide (k' = k) then (k', v) :: d' else (k', v') :: dict_setitem d' k v
  end.

Fixpoint dict_getitem (d : decl_table) (k : string) : option reqs_provs :=
  match d with
  | [] => None
  | (k', v') :: d' => if decide (k' = k) then Some v' else dict_getitem d' k
  end.

Definition dict_keys (d : decl_table) : list string := d.*1.

(** [list(set(xs))] *)
Definition list_set (xs : list string) : list string :=
  elements (list_to_set xs : gset string).

(** ** Declaration extractor: [parse_for_req_prov_params] *)

Section extractor.
(** [eval] is Python's builtin: it may raise, may act on the world, and is
    modelled on texts whose value is a list of strings. *)
Context {W : Type} (py_eval : string → eff W (list string)).

Definition extractor_state : Type := decl_table * list string * list string.

Definition none_has_no_named : pyexn :=
  BuiltinError "AttributeError" "'NoneType' object has no attribute 'named'".

(** [r.named[key]] for the result [r] of [parse]. *)
Definition named (r : option (gmap string string)) (key : string) : eff W string :=
  match r with
  | None => eff_raise none_has_no_named
  | Some d =>
      match d !! key with
      | Some v => eff_ret v
      | None => eff_raise (BuiltinError "KeyError" key)
      end
  end.

(** The test of line 127. *)
Definition is_decorated_def (line next : string) : bool :=
  py_in "@myFeature" line && py_in "def " next.

(** Body of the [for] loop, lines 127-141, for the lines at [i] and
    [i + 1].  The right-hand side of the assignment of line 133 is
    evaluated before its target. *)
Definition extract_pair (line next : string) (st : extractor_state)
  : eff W extractor_state :=
  let '(fnames_req_prov_dict, all_required_params, all_provided_params) := st in
  if is_decorated_def line next then
    let reqs_provs_1 := parse myFeature_format (strip line) in
    let func_name := parse def_format (strip next) in
    let* req_text := named reqs_provs_1 "requires" in
    let* reqs := py_eval req_text in
    let* prov_text := named reqs_provs_1 "provides" in
    let* provs := py_eval prov_text in
    let* funcname := named func_name "funcname" in
    let fnames_req_prov_dict :=
      dict_setitem fnames_req_prov_dict funcname (ReqsProvs reqs provs) in
    let* req_text := named reqs_provs_1 "requires" in
    let* reqs' := py_eval req_text in
    let all_required_params := list_set (all_required_params ++ list_set reqs') in
    let* prov_text := named reqs_provs_1 "provides" in
    let* provs' := py_eval prov_text in
    let all_provided_params := list_set (all_provided_params ++ list_set provs') in
    eff_ret (fnames_req_prov_dict, all_required_params, all_provided_params)
  else eff_ret st.

(** [for i in range(len(all_lines) - 1)], as a walk over the lines that
    stops before the last one. *)
Fixpoint extract_lines (all_lines : list string) (st : extractor_state)
  : eff W extractor_state :=
  match all_lines with
  | line :: ((next :: _) as rest) =>
      let* st' := extract_pair line next st in
      extract_lines rest st'
  | _ => eff_ret st
  end.

Definition parse_for_req_prov_params (script_text : string)
  : eff W extractor_state :=
  extract_lines (readlines script_text) ([], [], []).

End extractor.

(** ** Invocation guard: the decorator class [myFeature] *)

(** [dict(pairs)]: a later pair replaces an earlier one with the same key. *)
Definition py_dict {V : Type} (pairs : list (string * V)) : gmap string V :=
  foldl (λ d kv, <[kv.1 := kv.2]> d) ∅ pairs.

(** The first name of [names] that is no key of [d]: where a loop of the
    shape [for name in names: if name not in d: raise ...] stops. *)
Fixpoint first_absent {V : Type} (names : list string) (d : gmap string V)
  : option string :=
  match names with
  | [] => None
  | name :: rest =>
      match d !! name with
      | None => Some name
      | Some _ => first_absent rest d
      end
  end.

Module myFeature.
Record t : Type := init {
  requires : list string;
  provides : list string;
}.

(** A decorated function receives its keyword arguments and returns a
    dictionary or raises. *)
Definition callable (V : Type) : Type := gmap string V → result (gmap string V).

(** [wrapped_f], lines 94-106, for a call with keyword arguments only of
    a function that returns a dictionary, which is how the scheduler
    calls it (line 204).  The wrapper for any call is [call] below, and
    the two agree on such calls (lemma [call_keywords_only]). *)
Definition wrapped_f {V : Type} (self : t) (f : callable V) : callable V :=
  λ kwargs,
  match first_absent (requires self) kwargs with
  | Some required_arg =>
      Raise (MissingRequiredParameterError
               ("Required arg " +:+ required_arg +:+
                " not provided in function call."))
  | None =>
      match f kwargs with
      | Raise e => Raise e
      | Return result_dict =>
          match first_absent (provides self) result_dict with
          | Some provided =>
              Raise (MissingRequiredReturnKeyError
                       ("Key " +:+ provided +:+
                        " not present in function return value."))
          | None => Return result_dict
          end
      end
  end.

(** [__call__], lines 78-107: the wrapper it returns, for any call.  [A]
    is the type of the positional values and [R] that of what the
    decorated function returns, which need not be a dictionary.
    [eq_name x a] is the comparison of the positional value [a] with the
    name [x] taken as a truth value, which may raise (as it does for an
    array of several elements); [contains x r] is [x in r], which raises
    when [r] is no container. *)
Section call.
Context {A V R : Type}.
Context (eq_name : string → A → result bool).
Context (contains : string → R → result bool).

(** [x in args], for the tuple [args]: the values are compared in turn
    and the first one that is equal decides. *)
Fixpoint in_tuple (x : string) (args : list A) : result bool :=
  match args with
  | [] => Return false
  | a :: rest =>
      match eq_name x a with
      | Raise e => Raise e
      | Return true => Return true
      | Return false => in_tuple x rest
      end
  end.

(** Lines 95-99. *)
Fixpoint check_required (names : list string) (args : list A)
    (kwargs : gmap string V) : result unit :=
  match names with
  | [] => Return ()
  | required_arg :: rest =>
      match in_tuple required_arg args with
      | Raise e => Raise e
      | Return true => check_required rest args kwargs
      | Return false =>
          match kwargs !! required_arg with
          | Some _ => check_required rest args kwargs
          | None =>
              Raise (MissingRequiredParameterError
                       ("Required arg " +:+ required_arg +:+
                        " not provided in function call."))
          end
      end
  end.

(** Lines 101-105. *)
Fixpoint check_provided (names : list string) (result_dict : R) : result unit :=
  match names with
  | [] => Return ()
  | provided :: rest =>
      match contains provided result_dict with
      | Raise e => Raise e
      | Return true => check_provided rest result_dict
      | Return false =>
          Raise (MissingRequiredReturnKeyError
                   ("Key " +:+ provided +:+
                    " not present in function return value."))
      end
  end.

Definition call (self : t) (f : list A → gmap string V → result R)
    (args : list A) (kwargs : gmap string V) : result R :=
  match check_required (requires self) args kwargs with
  | Raise e => Raise e
  | Return _ =>
      match f args kwargs with
      | Raise e => Raise e
      | Return result_dict =>
          match check_provided (provides self) result_dict with
          | Raise e => Raise e
          | Return _ => Return result_dict
          end
      end
  end.
End call.
End myFeature.

(** ** Scheduler: [call_custom_functions] *)

(** Local variables of [call_custom_functions] that the loops update. *)
Record sched_state (V : Type) : Type := SchedState {
  all_required_params_copy : list string;
  func_queue : list string;
  funcnames : list string;
  i : nat;
  func_rounds : gmap nat (list string);
  all_extracted_features : gmap string V;
}.
Arguments SchedState {V}.
Arguments all_required_params_copy {V}.
Arguments func_queue {V}.
Arguments funcnames {V}.
Arguments i {V}.
Arguments func_rounds {V}.
Arguments all_extracted_features {V}.

(** [l.remove(x)]: drops the first occurrence, [None] is ValueError. *)
Fixpoint py_remove (x : string) (l : list string) : option (list string) :=
  match l with
  | [] => None
  | y :: l' => if decide (y = x) then Some l' else cons y <$> py_remove x l'
  end.

Definition unresolved_message (reqd_param : string) : string :=
  "Not all of the required parameters are provided by the " +:+
  "functions in this script (required parameter '" +:+ reqd_param +:+ "').".

Section scheduler.
(** [custom_feature_defs] is the imported script: [getattr] on it gives,
    for a name it defines, the function as the script decorated it with
    [myFeature], that is the decorator object and the function
    underneath; the function underneath returns a dictionary or raises. *)
Context {V : Type}.
Context (custom_feature_defs : string → option (myFeature.t * myFeature.callable V)).
Context (features_already_known : gmap string V).
Context (all_required_params all_provided_params : list string).
Context (fnames_req_prov_dict : decl_table).

(** Lines 172-173. *)
Definition initial_required_copy : list string :=
  filter (λ x, features_already_known !! x = None) all_required_params.

(** Lines 174-179. *)
Fixpoint check_all_provided (copy : list string) : result unit :=
  match copy with
  | [] => Return ()
  | reqd_param :: rest =>
      if decide (reqd_param ∈ all_provided_params)
      then check_all_provided rest
      else Raise (Exception (unresolved_message reqd_param))
  end.

(** The test of line 192. *)
Definition blocked (copy reqs : list string) : bool :=
  bool_decide (0 < size ((list_to_set copy : gset string) ∩ list_to_set reqs)).

(** Lines 198-203. *)
Definition build_arguments (reqs : list string) (extracted : gmap string V)
  : gmap string V :=
  foldl (λ arguments req,
           match features_already_known !! req with
           | Some v => <[req := v]> arguments
           | None =>
               match extracted !! req with
               | Some v => <[req := v]> arguments
               | None => arguments
               end
           end) ∅ reqs.

(** Body of the [for] loop, lines 189-209. *)
Definition visit (funcname : string) : eff (sched_state V) unit := λ st,
  match dict_getitem fnames_req_prov_dict funcname with
  | None => (Raise (BuiltinError "KeyError" funcname), st)
  | Some reqs_provs_dict =>
      let reqs := requires reqs_provs_dict in
      let provs := provides reqs_provs_dict in
      if blocked (all_required_params_copy st) reqs then
        (Return (),
         SchedState (all_required_params_copy st) (func_queue st ++ [funcname])
           (funcnames st) (i st) (func_rounds st) (all_extracted_features st))
      else
        let st1 :=
          SchedState (filter (λ x, x ∉ provs) (all_required_params_copy st))
            (func_queue st) (funcnames st) (i st)
            (alter (λ l, l ++ [funcname]) (i st) (func_rounds st))
            (all_extracted_features st) in
        let arguments := build_arguments reqs (all_extracted_features st) in
        match custom_feature_defs funcname with
        | None => (Raise (BuiltinError "AttributeError" funcname), st1)
        | Some (self, f) =>
            match myFeature.wrapped_f self f arguments with
            | Raise e => (Raise e, st1)
            | Return func_result =>
                let merged :=
                  py_dict (map_to_list (all_extracted_features st) ++
                           map_to_list func_result) in
                match py_remove funcname (funcnames st) with
                | None =>
                    (Raise (BuiltinError "ValueError" funcname),
                     SchedState (all_required_params_copy st1) (func_queue st1)
                       (funcnames st1) (i st1) (func_rounds st1) merged)
                | Some remaining =>
                    (Return (),
                     SchedState (all_required_params_copy st1) (func_queue st1)
                       remaining (i st1) (func_rounds st1) merged)
                end
            end
        end
  end.

(** [for funcname in funcnames], line 188, over the list the body itself
    shortens: the iterator holds an index into the live list and stops
    when the index has reached its length.  Every iteration advances the
    index and the list never grows, so [length funcnames] iterations
    always suffice (lemma [for_funcnames_fuel]). *)
Fixpoint for_funcnames (fuel idx : nat) : eff (sched_state V) unit := λ st,
  match fuel with
  | 0 => (Return (), st)
  | S fuel' =>
      match funcnames st !! idx with
      | None => (Return (), st)
      | Some funcname =>
          match visit funcname st with
          | (Return _, st') => for_funcnames fuel' (S idx) st'
          | (Raise e, st') => (Raise e, st')
          end
      end
  end.

(** [func_rounds[str(i)] = []], line 187. *)
Definition open_round (st : sched_state V) : sched_state V :=
  SchedState (all_required_params_copy st) (func_queue st) (funcnames st)
    (i st) (<[i st := []]> (func_rounds st)) (all_extracted_features st).

(** [i += 1], line 210. *)
Definition next_round (st : sched_state V) : sched_state V :=
  SchedState (all_required_params_copy st) (func_queue st) (funcnames st)
    (S (i st)) (func_rounds st) (all_extracted_features st).

(** One turn of the [while] loop, lines 187-210. *)
Definition round : eff (sched_state V) unit := λ st,
  let st0 := open_round st in
  match for_funcnames (length (funcnames st0)) 0 st0 with
  | (Return _, st') => (Return (), next_round st')
  | (Raise e, st') => (Raise e, st')
  end.

(** [while len(funcnames) > 0], line 186. *)
Fixpoint while_funcnames (fuel : nat) (st : sched_state V)
  : outcome (sched_state V) :=
  match fuel with
  | 0 => OutOfFuel
  | S fuel' =>
      if bool_decide (0 < length (funcnames st)) then
        match round st with
        | (Return _, st') => while_funcnames fuel' st'
        | (Raise e, _) => Raises e
        end
      else Returns st
  end.

(** Lines 180-185. *)
Definition initial_state : sched_state V :=
  SchedState initial_required_copy [] (dict_keys fnames_req_prov_dict) 0 ∅ ∅.

Definition call_custom_functions (fuel : nat) : outcome (gmap string V) :=
  match check_all_provided initial_required_copy with
  | Raise e => Raises e
  | Return _ =>
      match while_funcnames fuel initial_state with
      | Returns st => Returns (all_extracted_features st)
      | Raises e => Raises e
      | OutOfFuel => OutOfFuel
      end
  end.
End scheduler.

(** [execute_functions_in_order], lines 261-268: the list of required
    names is passed twice, as [all_required_params] and as
    [all_provided_params].  [W] is the world that [eval] acts on during
    the extraction, and the world returned is the one the extraction
    left.  What [call_custom_functions] does to the host lies outside
    it: the copy and the import of the script (lines 151-166), of which
    [custom_feature_defs] is the outcome, the replacement of
    [sys.stdout] (lines 169-170 and 212), whatever the functions of the
    script do besides returning, and the removal of the copy (lines
    213-217). *)
Definition execute_functions_in_order {W V : Type}
    (py_eval : string → eff W (list string))
    (custom_feature_defs : string → option (myFeature.t * myFeature.callable V))
    (script_text : string) (features_already_known : gmap string V)
    (fuel : nat) (w : W) : outcome (gmap string V) * W :=
  match parse_for_req_prov_params py_eval script_text w with
  | (Raise e, w') => (Raises e, w')
  | (Return (fnames_req_prov_dict, all_required_params, all_provided_params), w') =>
      (call_custom_functions custom_feature_defs features_already_known
         all_required_params all_required_params fnames_req_prov_dict fuel, w')
  end.

(** ** Isolated execution: staging, container run, cleanup *)

(** The host as the functions see it: the paths that exist, and the state
    [D] of the docker daemon and of everything else outside the module. *)
Record host (D : Type) : Type := Host {
  files : gset string;
  daemon : D;
}.
Arguments Host {D}.
Arguments files {D}.
Arguments daemon {D}.

(** [os.path.join(a, b)] for a relative [b]. *)
Definition path_join (a b : string) : string := a +:+ "/" +:+ b.

(** [p] lies below the directory [dir]. *)
Definition below (dir p : string) : bool := String.prefix (dir +:+ "/") p.

(** [try: body finally: final]: an exception of [final] replaces whatever
    [body] returned or raised. *)
Definition try_finally {W A : Type} (body : eff W A) (final : eff W unit)
  : eff W A := λ w,
  match body w with
  | (r, w') =>
      match final w' with
      | (Return _, w'') => (r, w'')
      | (Raise e, w'') => (Raise e, w'')
      end
  end.

(** [rest] has a character that is no slash. *)
Fixpoint has_component (rest : string) : bool :=
  match rest with
  | EmptyString => false
  | String c rest' => negb (bool_decide (c = "/"%char)) || has_component rest'
  end.

(** The directories above [name], outermost first: the part of [name]
    before each run of slashes that has something before it and a
    component after it.  (The root is none of them: it always exists.) *)
Fixpoint directories_above_go (seen rest : string) : list string :=
  match rest with
  | EmptyString => []
  | String c rest' =>
      if decide (c = "/"%char) then
        match seen with
        | EmptyString => directories_above_go (String c seen) rest'
        | String last _ =>
            if bool_decide (last = "/"%char) || negb (has_component rest')
            then directories_above_go (String c seen) rest'
            else String.rev seen :: directories_above_go (String c seen) rest'
        end
      else directories_above_go (String c seen) rest'
  end.

Definition directories_above (name : string) : list string :=
  directories_above_go "" name.

(** Going up from the nearest directory, the missing ones are made until
    one exists. *)
Fixpoint create_missing (nearest_first : list string) (fs : gset string)
  : gset string :=
  match nearest_first with
  | [] => fs
  | dir :: above =>
      if decide (dir ∈ fs) then fs else {[dir]} ∪ create_missing above fs
  end.

Section isolated.
Context {D V : Type}.
(** Constants of [cfg], which is not part of the sources at hand. *)
Context (PROJECT_PATH_LINK PROJECT_PATH TMP_CUSTOM_FEATS_FOLDER : string).
(** [str(uuid.uuid4())[:10]] *)
Context (uuid4_str10 : eff (host D) string).
(** The docker client and the unpickling of the result file: each call may
    do anything to the host and may raise. *)
Context {Client : Type}.
Context (get_docker_client : eff (host D) Client).
Context (create_container : Client → string → string → eff (host D) string).
Context (start wait logs : Client → string → eff (host D) unit).
Context (docker_copy : Client → string → string → string → eff (host D) unit).
Context (load_results : string → eff (host D) (gmap string V)).
Context (remove_container : Client → string → eff (host D) unit).

Definition add_file (p : string) : eff (host D) unit :=
  λ w, (Return (), Host ({[p]} ∪ files w) (daemon w)).

Definition generate_random_str : eff (host D) string := uuid4_str10.

(** [os.makedirs(name)] makes the directory [name] and, before it, the
    directories above it that are missing: going up from [name], every
    directory is made until one is found that exists.  It raises when
    [name] itself exists (FileExistsError, an OSError).  Permissions, and
    paths that are files where a directory is needed, are left out. *)
Definition makedirs (name : string) : eff (host D) unit := λ w,
  let with_parents := create_missing (reverse (directories_above name)) (files w) in
  if decide (name ∈ files w)
  then (Raise (BuiltinError "OSError" name), Host with_parents (daemon w))
  else (Return (), Host ({[name]} ∪ with_parents) (daemon w)).

(** Lines 274-281. *)
Definition make_tmp_dir : eff (host D) string := λ w,
  let proj_path :=
    if decide (PROJECT_PATH_LINK ∈ files w) then PROJECT_PATH_LINK
    else PROJECT_PATH in
  match uuid4_str10 w with
  | (Raise e, w') => (Raise e, w')
  | (Return name, w') =>
      let path_to_tmp_dir := path_join (path_join proj_path "tmp") name in
      match makedirs path_to_tmp_dir w' with
      | (Raise e, w'') => (Raise e, w'')
      | (Return _, w'') => (Return path_to_tmp_dir, w'')
      end
  end.

(** Lines 294-301.  [shutil.copy] raises when the script is missing; the
    values are taken to be picklable. *)
Definition copy_data_to_tmp_dir (path_to_tmp_dir script_fpath : string)
    (features_already_known : gmap string V) : eff (host D) unit :=
  let* _ := (λ w, if decide (script_fpath ∈ files w)
                    then (Return (), w)
                    else (Raise (BuiltinError "IOError" script_fpath), w)) in
  let* _ := add_file (path_join path_to_tmp_dir "custom_feature_defs.py") in
  let* _ := add_file (path_join path_to_tmp_dir "features_already_known.pkl") in
  add_file (path_join path_to_tmp_dir "__init__.py").

(** Lines 372-375: the cleanup of the container.  A name that was never
    bound raises UnboundLocalError, which is caught; so is an exception of
    that class coming out of [remove_container]; any other one goes on. *)
Definition remove_container_guarded (client : option Client)
    (cont_id : option string) : eff (host D) unit :=
  match client, cont_id with
  | Some c, Some id =>
      λ w, match remove_container c id w with
           | (Raise e, w') =>
               if decide (exn_class e = "UnboundLocalError")
               then (Return (), w') else (Raise e, w')
           | r => r
           end
  | _, _ => eff_ret ()
  end.

(** Lines 330-375. *)
Definition extract_feats_in_docker_container (container_name path_to_tmp_dir : string)
  : eff (host D) (gmap string V) := λ w,
  let tmp_data_dir := path_to_tmp_dir in
  match get_docker_client w with
  | (Raise e, w1) => try_finally (eff_raise e) (remove_container_guarded None None) w1
  | (Return client, w1) =>
      let proj_mount_path :=
        if decide (PROJECT_PATH_LINK ∈ files w1) then PROJECT_PATH_LINK
        else PROJECT_PATH in
      match create_container client proj_mount_path tmp_data_dir w1 with
      | (Raise e, w2) =>
          try_finally (eff_raise e) (remove_container_guarded (Some client) None) w2
      | (Return cont_id, w2) =>
          try_finally
            (let* _ := start client cont_id in
             let* _ := wait client cont_id in
             let* _ := logs client cont_id in
             let* _ := logs client cont_id in
             let* _ := docker_copy client cont_id "/tmp/results_dict.pkl" path_to_tmp_dir in
             load_results (path_join path_to_tmp_dir "results_dict.pkl"))
            (remove_container_guarded (Some client) (Some cont_id)) w2
      end
  end.

(** Lines 381-393.  [shutil.rmtree(..., ignore_errors=True)] and the
    guarded [os.remove] calls raise nothing; the deletions are taken to
    succeed. *)
Definition remove_tmp_files (path_to_tmp_dir : string) : eff (host D) unit := λ w,
  let after_rmtree :=
    filter (λ p, p ≠ path_to_tmp_dir ∧ ¬ below path_to_tmp_dir p) (files w) in
  let after_remove :=
    foldl (λ fs tmp_file, fs ∖ {[tmp_file]}) after_rmtree
      [path_join TMP_CUSTOM_FEATS_FOLDER "custom_feature_defs.py";
       path_join TMP_CUSTOM_FEATS_FOLDER "custom_feature_defs.pyc";
       path_join TMP_CUSTOM_FEATS_FOLDER "__init__.pyc"] in
  (Return (), Host after_remove (daemon w)).

(** Lines 430-442. *)
Definition docker_extract_features (script_fpath : string)
    (features_already_known : gmap string V) : eff (host D) (gmap string V) :=
  let* container_name := generate_random_str in
  let* path_to_tmp_dir := make_tmp_dir in
  let* _ := copy_data_to_tmp_dir path_to_tmp_dir script_fpath features_already_known in
  try_finally
    (extract_feats_in_docker_container container_name path_to_tmp_dir)
    (remove_tmp_files path_to_tmp_dir).
End isolated.

(** ** [generate_custom_features]: the caller's dictionary *)

Section generate.
Context {V : Type}.
(** [np.array] and [len] on the array-like values the function is given,
    as its docstring has them: [len] is defined on each of them. *)
Context (np_array : V → V) (py_len : V → nat).
(** The dictionary objects, by address.  The default value of the
    parameter [features_already_known] is one object, made when the [def]
    statement ran. *)
Context (default_features_already_known : nat).
(** The environment: the answer of [is_running_in_docker()], the answers
    of the two calls of [docker_images_available()] (lines 581 and 591,
    the second one made only when the first branches were not taken), and
    whether MLTSP_NO_DOCKER is "1".  Then the two ways of running the
    script. *)
Context (is_running_in_docker docker_images_available no_docker : bool).
Context (docker_images_available_again : bool).
Context (run_in_process run_in_container : string → gmap string V → result (gmap string V)).

(** Lines 565-573, on the dictionary itself. *)
Definition fill_known (t m : V) (e : option V) (d : gmap string V) : gmap string V :=
  let d := if decide (d !! "t" = None) then <["t" := t]> d else d in
  let d := if decide (d !! "m" = None) then <["m" := m]> d else d in
  let d :=
    match e with
    | Some e' =>
        if bool_decide (py_len e' = py_len m) && bool_decide (d !! "e" = None)
        then <["e" := e']> d else d
    | None => d
    end in
  foldl (λ d k, match d !! k with
                | Some v => <[k := np_array v]> d
                | None => d
                end) d ["t"; "m"; "e"].

(** Lines 575-594. *)
Definition run_script (custom_script_path : string) (known : gmap string V)
  : result (gmap string V) :=
  if is_running_in_docker then run_in_process custom_script_path known
  else if docker_images_available && negb no_docker
       then run_in_container custom_script_path known
  else if no_docker then run_in_process custom_script_path known
  else if negb docker_images_available_again
       then Raise (Exception "Docker image not available.")
  else Raise (BuiltinError "UnboundLocalError" "all_new_features").

(** [features_already_known] is the address of the caller's dictionary,
    or [None] when the argument is left out.  An address Python hands
    around always holds an object: the first branch is there for the
    addresses that hold none. *)
Definition generate_custom_features (custom_script_path : string) (t m : V)
    (e : option V) (features_already_known : option nat)
  : eff (gmap nat (gmap string V)) (gmap string V) := λ heap,
  let address := default default_features_already_known features_already_known in
  match heap !! address with
  | None => (Raise (BuiltinError "NameError" "features_already_known"), heap)
  | Some d =>
      let d' := fill_known t m e d in
      (run_script custom_script_path d', <[address := d']> heap)
  end.
End generate.

(** ** [verify_new_script]: the trial run of a new script *)

Section verify.
Context {V : Type}.
(** [assemble_test_data()], which reads the sample data file, and the
    environment: the answers of the two calls of
    [docker_images_available()] (lines 481 and 491) and whether
    MLTSP_NO_DOCKER is "1". *)
Context (assemble_test_data : result (gmap string V)).
Context (docker_images_available no_docker : bool).
Context (docker_images_available_again : bool).
Context (run_in_process run_in_container : string → gmap string V → result (gmap string V)).

(** Lines 476-493. *)
Definition verify_new_script (script_fpath : string) : result (gmap string V) :=
  match assemble_test_data with
  | Raise e => Raise e
  | Return features_already_known =>
      let all_extracted_features : gmap string V := ∅ in
      if docker_images_available && negb no_docker
      then run_in_container script_fpath features_already_known
      else if no_docker then run_in_process script_fpath features_already_known
      else if negb docker_images_available_again
           then Raise (Exception "Docker image not available.")
      else Return all_extracted_features
  end.
End verify.

(** * Vocabulary of the properties, and example data *)

(** ** Evaluators *)

Definition is_quote (c : ascii) : bool :=
  bool_decide (c = "'"%char) || bool_decide (c = "034"%char).

Fixpoint split_commas (cur : string) (s : string) : list string :=
  match s with
  | EmptyString => [String.rev cur]
  | String c s' =>
      if decide (c = ","%char)
      then String.rev cur :: split_commas "" s'
      else split_commas (String c cur) s'
  end.

Definition unquote (item : string) : option string :=
  match strip_of Ascii.is_space item with
  | String q body =>
      match String.rev body with
      | String q' ydob =>
          if is_quote q && bool_decide (q = q') &&
             negb (py_in (String q "") ydob)
          then Some (String.rev ydob) else None
      | EmptyString => None
      end
  | EmptyString => None
  end.

(** A stand-in for [eval] on the texts the examples use: a list display of
    string literals, such as [['t', 'm']].  It agrees with Python there.  A
    text of any other shape lies outside it and is answered by an exception
    of class [NotAListDisplay], which Python's [eval] need not do. *)
Definition eval_list_display (text : string) : result (list string) :=
  let not_modelled := Raise (BuiltinError "NotAListDisplay" text) in
  match strip_of Ascii.is_space text with
  | String "["%char body =>
      match String.rev body with
      | String "]"%char ydob =>
          let inner := String.rev ydob in
          if decide (strip_of Ascii.is_space inner = "") then Return []
          else match mapM unquote (split_commas "" inner) with
               | Some names => Return names
               | None => not_modelled
               end
      | _ => not_modelled
      end
  | _ => not_modelled
  end.

(** An evaluator that leaves the world alone, and one that records every
    text it is given. *)
Definition pure_eval (ev : string → result (list string))
  : string → eff unit (list string) := λ text w, (ev text, w).


(** ** Messages, and scripts with their modules *)

Definition missing_key_message (provided : string) : string :=
  "Key " +:+ provided +:+ " not present in function return value.".

Definition missing_arg_message (required_arg : string) : string :=
  "Required arg " +:+ required_arg +:+ " not provided in function call.".

Definition konst {V : Type} (d : gmap string V) : myFeature.callable V :=
  λ _, Return d.

(** The script a table of decorated functions stands for. *)
Definition script_module {V : Type}
    (defs : list (string * (myFeature.t * myFeature.callable V)))
  : string → option (myFeature.t * myFeature.callable V) :=
  λ name, (list_to_map defs : gmap string _) !! name.

(** The names of [all_required_params] that are neither known to the
    caller nor in [all_provided_params], in the order of the list. *)
Definition unresolved {V : Type} (features_already_known : gmap string V)
    (all_required_params all_provided_params : list string) : list string :=
  filter (λ x, x ∉ all_provided_params)
    (filter (λ x, features_already_known !! x = None) all_required_params).

(** No line containing the annotation is followed by a line containing
    [def ]. *)
Fixpoint no_decorated_def (all_lines : list string) : bool :=
  match all_lines with
  | line :: ((next :: _) as rest) =>
      negb (is_decorated_def line next) && no_decorated_def rest
  | _ => true
  end.



(** ** States of the scheduling loop *)

Section scheduler_vocabulary.
Context {V : Type}.
Context (custom_feature_defs : string → option (myFeature.t * myFeature.callable V)).
Context (features_already_known : gmap string V).
Context (all_required_params : list string).
Context (fnames_req_prov_dict : decl_table).

(** The states in which the [for] loop can be about to visit a unit: the
    first round has just been opened, or a unit of the pending list has
    been visited without an exception, or the round has ended and the next
    one has been opened.  Which pending unit the iterator yields next is
    left open. *)
Inductive visiting : sched_state V → Prop :=
  | visiting_first : visiting
      (open_round
         (initial_state features_already_known all_required_params
            fnames_req_prov_dict))
  | visiting_visit st funcname st' :
      visiting st → funcname ∈ funcnames st →
      visit custom_feature_defs features_already_known fnames_req_prov_dict
        funcname st = (Return (), st') → visiting st'
  | visiting_next st : visiting st → visiting (open_round (next_round st)).

(** [funcname] was run in round [n]: it was appended to [func_rounds[n]]. *)
Definition ran_in (st : sched_state V) (n : nat) (funcname : string) : Prop :=
  ∃ l, func_rounds st !! n = Some l ∧ funcname ∈ l.

(** Some unit that was run declares [x] among its outputs. *)
Definition provided_by_run (st : sched_state V) (x : string) : Prop :=
  ∃ n funcname decl,
    ran_in st n funcname ∧
    dict_getitem fnames_req_prov_dict funcname = Some decl ∧
    x ∈ provides decl.

(** What holds in every such state. *)
Record sched_inv (st : sched_state V) : Prop := SchedInv {
  inv_copy_sound : ∀ x, x ∈ all_required_params_copy st →
    x ∈ all_required_params ∧ features_already_known !! x = None ∧
    ¬ provided_by_run st x;
  inv_copy_complete : ∀ x, x ∈ all_required_params →
    features_already_known !! x = None →
    x ∈ all_required_params_copy st ∨ provided_by_run st x;
  inv_pending_nodup : NoDup (funcnames st);
  inv_ran_not_pending : ∀ n funcname, ran_in st n funcname → funcname ∉ funcnames st;
  inv_round_open : is_Some (func_rounds st !! i st);
  inv_rounds_past : ∀ n, is_Some (func_rounds st !! n) → n ≤ i st;
}.

(** A stall: every pending unit is declared and fails the test of line
    192. *)
Definition stalled (st : sched_state V) : Prop :=
  ∀ u, u ∈ funcnames st →
    ∃ decl, dict_getitem fnames_req_prov_dict u = Some decl ∧
            blocked (all_required_params_copy st) (requires decl) = true.

(** The value the code picks for a name: the caller's if there is one,
    else the extracted one (lines 200-203). *)
Definition known_value (extracted : gmap string V) (name : string) : option V :=
  match features_already_known !! name with
  | Some v => Some v
  | None => extracted !! name
  end.

End scheduler_vocabulary.

Arguments visiting_first {V custom_feature_defs features_already_known
  all_required_params fnames_req_prov_dict}.
Arguments visiting_visit {V custom_feature_defs features_already_known
  all_required_params fnames_req_prov_dict}.
Arguments visiting_next {V custom_feature_defs features_already_known
  all_required_params fnames_req_prov_dict}.

Section round_vocabulary.
Context {V : Type}.
Context (custom_feature_defs : string → option (myFeature.t * myFeature.callable V)).
Context (features_already_known : gmap string V).
Context (fnames_req_prov_dict : decl_table).

(** One round told along the pending list it starts from: the head is
    visited; when it was run, and so left the list, the unit after it is
    passed over. *)
Fixpoint scan (pending : list string) : eff (sched_state V) unit := λ st,
  match pending with
  | [] => (Return (), st)
  | funcname :: rest =>
      match visit custom_feature_defs features_already_known
              fnames_req_prov_dict funcname st with
      | (Raise e, st') => (Raise e, st')
      | (Return _, st') =>
          if decide (funcname ∈ funcnames st') then scan rest st'
          else match rest with
               | [] => (Return (), st')
               | _ :: rest' => scan rest' st'
               end
      end
  end.

(** Nothing extracted is lost, no unit comes back to the pending list, no
    name comes back to the outstanding ones, and [func_queue] only gets
    longer. *)
Definition grows (st st' : sched_state V) : Prop :=
  dom (all_extracted_features st) ⊆ dom (all_extracted_features st') ∧
  funcnames st' `sublist_of` funcnames st ∧
  all_required_params_copy st' `sublist_of` all_required_params_copy st ∧
  func_queue st `prefix_of` func_queue st'.

(** The decorator of every declared function asks for no more than the
    table says it requires, and promises at least what the table says it
    provides: both come from the same two texts of the script. *)
Definition decorators_agree : Prop :=
  ∀ funcname decl self f,
    dict_getitem fnames_req_prov_dict funcname = Some decl →
    custom_feature_defs funcname = Some (self, f) →
    (∀ x, x ∈ myFeature.requires self → x ∈ requires decl) ∧
    (∀ x, x ∈ provides decl → x ∈ myFeature.provides self).
End round_vocabulary.

Section run_vocabulary.
Context {V : Type}.
Context (fnames_req_prov_dict : decl_table).

(** The loop is between two rounds: nothing was done yet, or a round has
    just ended. *)
Definition between_rounds
    (custom_feature_defs : string → option (myFeature.t * myFeature.callable V))
    (features_already_known : gmap string V) (all_required_params : list string)
    (st : sched_state V) : Prop :=
  st = initial_state features_already_known all_required_params
         fnames_req_prov_dict ∨
  ∃ v, visiting custom_feature_defs features_already_known all_required_params
         fnames_req_prov_dict v ∧ st = next_round v.

(** The book-keeping of the units: every declared unit is pending or was
    run, only declared units are, no round lists a unit twice, and no unit
    is listed in two rounds. *)
Definition units_accounted (st : sched_state V) : Prop :=
  (∀ u, u ∈ dict_keys fnames_req_prov_dict →
        u ∈ funcnames st ∨ ∃ n, ran_in st n u) ∧
  (∀ u, u ∈ funcnames st → u ∈ dict_keys fnames_req_prov_dict) ∧
  (∀ n u, ran_in st n u → u ∈ dict_keys fnames_req_prov_dict) ∧
  (∀ n l, func_rounds st !! n = Some l → NoDup l) ∧
  (∀ n n' u, ran_in st n u → ran_in st n' u → n = n').

(** Every name that a unit already run declares as provided has been
    extracted. *)
Definition outputs_extracted (st : sched_state V) : Prop :=
  ∀ n u decl x,
    ran_in st n u → dict_getitem fnames_req_prov_dict u = Some decl →
    x ∈ provides decl → is_Some (all_extracted_features st !! x).
End run_vocabulary.

(** An evaluator whose value does not depend on the world it is run in:
    the two evaluations of one annotation field then agree. *)
Definition world_independent {W : Type} (py_eval : string → eff W (list string))
  : Prop :=
  ∀ text w w', (py_eval text w).1 = (py_eval text w').1.

(** What the scheduler relies on in the three values of the extraction:
    a function name heads one entry of the table, no name is listed twice,
    and the names of every entry are among the listed ones. *)
Definition well_formed_extraction (st : extractor_state) : Prop :=
  let '(fnames_req_prov_dict, all_required_params, all_provided_params) := st in
  NoDup (dict_keys fnames_req_prov_dict) ∧
  NoDup all_required_params ∧ NoDup all_provided_params ∧
  ∀ funcname decl,
    dict_getitem fnames_req_prov_dict funcname = Some decl →
    (∀ r, r ∈ requires decl → r ∈ all_required_params) ∧
    (∀ p, p ∈ provides decl → p ∈ all_provided_params).

(** ** Example tables, scripts and hosts *)

(** One unit that requires q, which nothing provides. *)
Definition script_requires_unknown : string :=
  "@myFeature(requires=['q'], provides=['x'])" +:+ nl +:+
  "def f(q):" +:+ nl +:+
  "    return {'x': 1}" +:+ nl.

(** Units A (requires y, provides x) and B (requires x, provides y). *)
Definition cycle_table : decl_table :=
  [("A", ReqsProvs ["y"] ["x"]); ("B", ReqsProvs ["x"] ["y"])].

Definition cycle_defs : string → option (myFeature.t * myFeature.callable nat) :=
  script_module
    [("A", (myFeature.init ["y"] ["x"], konst {["x" := 1]}));
     ("B", (myFeature.init ["x"] ["y"], konst {["y" := 2]}))].

Definition cycle_script : string :=
  "@myFeature(requires=['y'], provides=['x'])" +:+ nl +:+
  "def A(y):" +:+ nl +:+
  "    return {'x': 1}" +:+ nl +:+
  "@myFeature(requires=['x'], provides=['y'])" +:+ nl +:+
  "def B(x):" +:+ nl +:+
  "    return {'y': 2}" +:+ nl.

(** Units A (requires t, provides x) and B (requires x, provides y), the
    caller knowing t. *)
Definition chain_table : decl_table :=
  [("A", ReqsProvs ["t"] ["x"]); ("B", ReqsProvs ["x"] ["y"])].

Definition chain_defs : string → option (myFeature.t * myFeature.callable nat) :=
  script_module
    [("A", (myFeature.init ["t"] ["x"], konst {["x" := 10]}));
     ("B", (myFeature.init ["x"] ["y"], konst {["y" := 20]}))].

(** Units A (requires t, provides x), C (requires y, provides z) and B
    (requires x, provides y), declared in this order. *)
Definition same_round_table : decl_table :=
  [("A", ReqsProvs ["t"] ["x"]); ("C", ReqsProvs ["y"] ["z"]);
   ("B", ReqsProvs ["x"] ["y"])].

Definition same_round_defs : string → option (myFeature.t * myFeature.callable nat) :=
  script_module
    [("A", (myFeature.init ["t"] ["x"], konst {["x" := 10]}));
     ("C", (myFeature.init ["y"] ["z"], konst {["z" := 30]}));
     ("B", (myFeature.init ["x"] ["y"], konst {["y" := 20]}))].

(** Units U1 and U2, both requiring t and both providing z; U1 returns
    z = 1 and U2 returns z = 2. *)
Definition twice_table : decl_table :=
  [("U1", ReqsProvs ["t"] ["z"]); ("U2", ReqsProvs ["t"] ["z"])].

Definition twice_defs : string → option (myFeature.t * myFeature.callable nat) :=
  script_module
    [("U1", (myFeature.init ["t"] ["z"], konst {["z" := 1]}));
     ("U2", (myFeature.init ["t"] ["z"], konst {["z" := 2]}))].

(** Unit P (requires t) provides x = 7; unit Q requires x and returns,
    as seen, the x it was called with. *)
Definition shadow_table : decl_table :=
  [("P", ReqsProvs ["t"] ["x"]); ("Q", ReqsProvs ["x"] ["seen"])].

Definition shadow_defs : string → option (myFeature.t * myFeature.callable nat) :=
  script_module
    [("P", (myFeature.init ["t"] ["x"], konst {["x" := 7]}));
     ("Q", (myFeature.init ["x"] ["seen"],
            λ kwargs, Return {["seen" := default 0 (kwargs !! "x")]}))].

(** Unit P (requires t) provides x = 7; unit Q requires x and provides x
    again: it returns the x it was called with, plus 100. *)
Definition override_table : decl_table :=
  [("P", ReqsProvs ["t"] ["x"]); ("Q", ReqsProvs ["x"] ["x"])].

Definition override_defs : string → option (myFeature.t * myFeature.callable nat) :=
  script_module
    [("P", (myFeature.init ["t"] ["x"], konst {["x" := 7]}));
     ("Q", (myFeature.init ["x"] ["x"],
            λ kwargs, Return {["x" := 100 + default 0 (kwargs !! "x")]}))].


(** A function without annotation. *)
Definition script_plain_def : string :=
  "def f(t):" +:+ nl +:+
  "    return {'x': 1}" +:+ nl.


(** One unit: requires t and m, provides avg. *)
Definition script_mean : string :=
  "@myFeature(requires=['t', 'm'], provides=['avg'])" +:+ nl +:+
  "def mean(t, m):" +:+ nl +:+
  "    return {'avg': 1}" +:+ nl.

Definition mean_defs : string → option (myFeature.t * myFeature.callable nat) :=
  script_module
    [("mean", (myFeature.init ["t"; "m"] ["avg"], konst {["avg" := 1]}))].


(** A host with the project directory and a script, a docker daemon whose
    container crashes when it is started, and one whose script is
    missing. *)
Definition crash : pyexn := BuiltinError "APIError" "container crashed".

Definition sample_host : host unit := Host {["/proj"; "/scripts/feats.py"]} ().

Definition sample_uuid : eff (host unit) string := eff_ret "0123456789".

Definition crashing_run (script_fpath : string) : eff (host unit) (gmap string nat) :=
  docker_extract_features "/link" "/proj" "/feats" sample_uuid
    (eff_ret ()) (λ _ _ _, eff_ret "cid")
    (λ _ _, eff_raise crash) (λ _ _, eff_ret ()) (λ _ _, eff_ret ())
    (λ _ _ _ _, eff_ret ()) (λ _, eff_ret ∅) (λ _ _, eff_ret ())
    script_fpath ∅.

(** Values for the examples: a list of numbers, flagged once it has been
    converted to an array. *)
Definition sample_array (v : bool * list nat) : bool * list nat := (true, v.2).
Definition sample_len (v : bool * list nat) : nat := length v.2.

Definition sample_generate (t m : bool * list nat) (e : option (bool * list nat))
    (features_already_known : option nat) : eff (gmap nat (gmap string (bool * list nat)))
                                               (gmap string (bool * list nat)) :=
  generate_custom_features sample_array sample_len 0 true false false false
    (λ _ known, Return known) (λ _ _, Return ∅) "feats.py" t m e
    features_already_known.

(** * Properties *)

(** ** Dictionaries and lists *)

Lemma foldl_setitem {V : Type} (pairs : list (string * V)) (d : gmap string V) :
  foldl (λ d kv, <[kv.1 := kv.2]> d) d pairs = list_to_map (reverse pairs) ∪ d.
Proof.
  revert d. induction pairs as [|[k v] pairs IH]; intros d; simpl.
  - by rewrite (left_id_L ∅ (∪)).
  - rewrite IH, reverse_cons, list_to_map_app. simpl.
    rewrite insert_empty, <- (assoc_L (∪)).
    by rewrite <- insert_union_singleton_l.
Qed.

Lemma list_to_map_reverse_to_list {V : Type} (d : gmap string V) :
  list_to_map (reverse (map_to_list d)) = d.
Proof.
  rewrite <- (list_to_map_to_list d) at 2.
  apply list_to_map_proper.
  - rewrite fmap_reverse, reverse_Permutation. apply NoDup_fst_map_to_list.
  - apply reverse_Permutation.
Qed.

(** [dict(list(a.items()) + list(b.items()))] is [b] laid over [a]. *)
Lemma py_dict_items {V : Type} (a b : gmap string V) :
  py_dict (map_to_list a ++ map_to_list b) = b ∪ a.
Proof.
  unfold py_dict. rewrite foldl_app, !foldl_setitem.
  rewrite !list_to_map_reverse_to_list.
  by rewrite (right_id_L ∅ (∪)).
Qed.

Lemma py_dict_items_lookup {V : Type} (a b : gmap string V) (k : string) :
  py_dict (map_to_list a ++ map_to_list b) !! k =
  match b !! k with Some v => Some v | None => a !! k end.
Proof.
  rewrite py_dict_items, lookup_union.
  destruct (b !! k), (a !! k); reflexivity.
Qed.

Lemma first_absent_Some {V : Type} (names : list string) (d : gmap string V) k :
  first_absent names d = Some k → k ∈ names ∧ d !! k = None.
Proof.
  induction names as [|n names IH]; simpl; [done|].
  destruct (d !! n) eqn:Hn.
  - intros [??]%IH. split; [by right|done].
  - intros [= <-]. split; [by left|done].
Qed.

Lemma first_absent_None {V : Type} (names : list string) (d : gmap string V) :
  first_absent names d = None ↔ ∀ n, n ∈ names → is_Some (d !! n).
Proof.
  induction names as [|n names IH]; simpl.
  - split; [|done]. intros _ n Hn. by apply elem_of_nil in Hn.
  - destruct (d !! n) eqn:Hn.
    + rewrite IH. split.
      * intros H n' [->|?]%elem_of_cons; [by rewrite Hn|by apply H].
      * intros H n' ?. apply H. by right.
    + split; [done|]. intros H. destruct (H n) as [v Hv]; [by left|congruence].
Qed.

Lemma py_remove_Some x l l' :
  py_remove x l = Some l' →
  length l = S (length l') ∧ (∀ y, y ∈ l' → y ∈ l) ∧
  (NoDup l → (x ∉ l') ∧ NoDup l' ∧ (∀ y, y ∈ l → y = x ∨ y ∈ l')).
Proof.
  revert l'. induction l as [|y l IH]; intros l'; simpl; [done|].
  destruct (decide (y = x)) as [->|Hne].
  - intros [= <-]. split; [done|]. split; [by right|].
    intros [??]%NoDup_cons. split; [done|]. split; [done|].
    intros z [->|?]%elem_of_cons; auto.
  - destruct (py_remove x l) as [l0|] eqn:Hr; simpl; [|done].
    intros [= <-]. destruct (IH l0 eq_refl) as (Hlen & Hsub & Hnd).
    split; [simpl; lia|]. split.
    + intros z [->|?]%elem_of_cons; [by left|right; auto].
    + intros [Hy Hl]%NoDup_cons. destruct (Hnd Hl) as (Hx & Hnd' & Hcov).
      split; [|split].
      * intros [?|?]%elem_of_cons; [congruence|done].
      * apply NoDup_cons. split; [|done]. intros ?. apply Hy. auto.
      * intros z [->|Hz]%elem_of_cons; [right; by left|].
        destruct (Hcov z Hz); [by left|right; by right].
Qed.

Lemma py_remove_elem x l : x ∈ l → is_Some (py_remove x l).
Proof.
  induction l as [|y l IH]; [by intros ?%elem_of_nil|].
  intros Hx. simpl. destruct (decide (y = x)); [eauto|].
  apply elem_of_cons in Hx as [->|Hx]; [done|].
  destruct (IH Hx) as [l' ->]. simpl. eauto.
Qed.

(** The test of line 192 holds when some name is in both lists. *)
Lemma blocked_true (copy reqs : list string) :
  blocked copy reqs = true ↔ ∃ x, x ∈ copy ∧ x ∈ reqs.
Proof.
  unfold blocked. rewrite bool_decide_eq_true. split.
  - intros [x Hx]%size_pos_elem_of. exists x.
    apply elem_of_intersection in Hx as [H1 H2].
    by rewrite !elem_of_list_to_set in H1, H2.
  - intros (x & H1 & H2).
    assert (Hne : size ((list_to_set copy : gset string) ∩ list_to_set reqs) ≠ 0).
    { apply size_non_empty_iff. intros Hempty.
      apply (not_elem_of_empty (C := gset string) x). rewrite <- Hempty.
      apply elem_of_intersection. by rewrite !elem_of_list_to_set. }
    lia.
Qed.

Lemma blocked_false (copy reqs : list string) :
  blocked copy reqs = false ↔ ∀ x, x ∈ reqs → x ∉ copy.
Proof.
  rewrite <- not_true_iff_false, blocked_true. split.
  - intros H x Hr Hc. apply H. eauto.
  - intros H (x & Hc & Hr). by apply (H x).
Qed.

(** ** The invocation guard *)

Section guard_properties.
Context {V : Type}.
Context (custom_feature_defs : string → option (myFeature.t * myFeature.callable V)).
Context (features_already_known : gmap string V).
Context (fnames_req_prov_dict : decl_table).

(** C5.  A unit the scheduler finds runnable is called through
    [wrapped_f] with the assembled arguments.  When every required
    argument is there, so that the function underneath is called and
    returns [result_dict]: if some provided name is missing from
    [result_dict], the call raises MissingRequiredReturnKeyError whose
    message names the first such name, the exception leaves [visit], and
    [all_extracted_features] is what it was before the call, so no pair of
    [result_dict] is merged; if every provided name is a key of
    [result_dict], [wrapped_f] returns [result_dict] itself. *)
Theorem guard_missing_return_key
    (st : sched_state V) (funcname : string) (decl : reqs_provs)
    (self : myFeature.t) (f : myFeature.callable V) (result_dict : gmap string V) :
  let arguments :=
    build_arguments features_already_known (requires decl)
      (all_extracted_features st) in
  dict_getitem fnames_req_prov_dict funcname = Some decl →
  blocked (all_required_params_copy st) (requires decl) = false →
  custom_feature_defs funcname = Some (self, f) →
  first_absent (myFeature.requires self) arguments = None →
  f arguments = Return result_dict →
  ((∃ p, p ∈ myFeature.provides self ∧ result_dict !! p = None) →
     ∃ k st',
       k ∈ myFeature.provides self ∧ result_dict !! k = None ∧
       myFeature.wrapped_f self f arguments =
         Raise (MissingRequiredReturnKeyError (missing_key_message k)) ∧
       visit custom_feature_defs features_already_known fnames_req_prov_dict
         funcname st =
         (Raise (MissingRequiredReturnKeyError (missing_key_message k)), st') ∧
       all_extracted_features st' = all_extracted_features st) ∧
  ((∀ p, p ∈ myFeature.provides self → is_Some (result_dict !! p)) →
     myFeature.wrapped_f self f arguments = Return result_dict).
Proof.
  intros arguments Hdecl Hrun Hdef Hreq Hf. split.
  - intros (p & Hp & Hmiss).
    destruct (first_absent (myFeature.provides self) result_dict) as [k|] eqn:Hk.
    + destruct (first_absent_Some _ _ _ Hk) as [Hin Hnone].
      assert (Hw : myFeature.wrapped_f self f arguments =
                   Raise (MissingRequiredReturnKeyError (missing_key_message k))).
      { unfold myFeature.wrapped_f. by rewrite Hreq, Hf, Hk. }
      eexists k, _. split; [done|]. split; [done|]. split; [done|].
      unfold visit. rewrite Hdecl, Hrun, Hdef.
      fold arguments. rewrite Hw. split; reflexivity.
    + exfalso. destruct (proj1 (first_absent_None _ _) Hk p Hp) as [v Hv].
      congruence.
  - intros Hall. unfold myFeature.wrapped_f. rewrite Hreq, Hf.
    by rewrite (proj2 (first_absent_None _ _) Hall).
Qed.
End guard_properties.

(** A unit that declares it provides z and returns only w. *)
Lemma guard_missing_return_key_witness :
  let table := [("f", ReqsProvs ["t"] ["z"])] in
  let defs := script_module [("f", (myFeature.init ["t"] ["z"], konst {["w" := 1]}))] in
  let known : gmap string nat := {["t" := 0]} in
  let st := initial_state known ["t"] table in
  ((∃ p, p ∈ ["z"] ∧ ({["w" := 1]} : gmap string nat) !! p = None) →
     ∃ k st',
       k ∈ ["z"] ∧ ({["w" := 1]} : gmap string nat) !! k = None ∧
       myFeature.wrapped_f (myFeature.init ["t"] ["z"]) (konst {["w" := 1]})
         (build_arguments known ["t"] (all_extracted_features st)) =
         Raise (MissingRequiredReturnKeyError (missing_key_message k)) ∧
       visit defs known table "f" st =
         (Raise (MissingRequiredReturnKeyError (missing_key_message k)), st') ∧
       all_extracted_features st' = all_extracted_features st) ∧
  ((∀ p, p ∈ ["z"] → is_Some (({["w" := 1]} : gmap string nat) !! p)) →
     myFeature.wrapped_f (myFeature.init ["t"] ["z"]) (konst {["w" := 1]})
       (build_arguments known ["t"] (all_extracted_features st)) =
       Return {["w" := 1]}).
Proof.
  intros table defs known st.
  apply (guard_missing_return_key defs known table st "f"
           (ReqsProvs ["t"] ["z"]) (myFeature.init ["t"] ["z"])
           (konst {["w" := 1]}) {["w" := 1]});
    vm_compute; reflexivity.
Defined.

(** ** Validation of the required names *)

Section validation_properties.
Context {V : Type}.
Context (custom_feature_defs : string → option (myFeature.t * myFeature.callable V)).
Context (features_already_known : gmap string V).
Context (all_required_params all_provided_params : list string).
Context (fnames_req_prov_dict : decl_table).

Lemma check_all_provided_spec (copy : list string) :
  check_all_provided all_provided_params copy =
  match filter (λ x, x ∉ all_provided_params) copy with
  | [] => Return ()
  | x :: _ => Raise (Exception (unresolved_message x))
  end.
Proof.
  induction copy as [|x copy IH]; simpl; [done|].
  destruct (decide (x ∈ all_provided_params)) as [Hin|Hout].
  - rewrite filter_cons_False by auto. exact IH.
  - by rewrite filter_cons_True.
Qed.

Lemma unresolved_nil :
  unresolved features_already_known all_required_params all_provided_params = [] ↔
  ∀ x, x ∈ all_required_params →
       is_Some (features_already_known !! x) ∨ x ∈ all_provided_params.
Proof.
  unfold unresolved. split.
  - intros Hnil x Hx.
    destruct (features_already_known !! x) eqn:Hk; [left; eauto|right].
    destruct (decide (x ∈ all_provided_params)) as [|Hout]; [done|].
    exfalso. eapply (not_elem_of_nil x). rewrite <- Hnil.
    apply list_elem_of_filter. split; [done|].
    apply list_elem_of_filter. done.
  - intros Hall. apply elem_of_nil_inv. intros x Hx.
    apply list_elem_of_filter in Hx as [Hout Hx].
    apply list_elem_of_filter in Hx as [Hk Hx].
    destruct (Hall x Hx) as [[v Hv]|Hin]; [congruence|done].
Qed.

(** C3, as the code has it.  Before any unit runs,
    [call_custom_functions] raises for the required names that are neither
    keys of [features_already_known] nor in [all_provided_params]: when
    there is none it goes on to the scheduling loop, and when there is one
    it raises [Exception] whose message names the first of them in the
    order of [all_required_params], and that one only.  There is none
    exactly when every required name is known or provided. *)
Theorem validation_names_first_unresolved (fuel : nat) :
  match unresolved features_already_known all_required_params
          all_provided_params with
  | [] =>
      call_custom_functions custom_feature_defs features_already_known
        all_required_params all_provided_params fnames_req_prov_dict fuel =
      match while_funcnames custom_feature_defs features_already_known
              fnames_req_prov_dict fuel
              (initial_state features_already_known all_required_params
                 fnames_req_prov_dict) with
      | Returns st => Returns (all_extracted_features st)
      | Raises e => Raises e
      | OutOfFuel => OutOfFuel
      end
  | x :: _ =>
      call_custom_functions custom_feature_defs features_already_known
        all_required_params all_provided_params fnames_req_prov_dict fuel =
      Raises (Exception (unresolved_message x))
  end ∧
  (unresolved features_already_known all_required_params all_provided_params = [] ↔
   ∀ x, x ∈ all_required_params →
        is_Some (features_already_known !! x) ∨ x ∈ all_provided_params).
Proof.
  split; [|apply unresolved_nil].
  unfold call_custom_functions. rewrite check_all_provided_spec.
  unfold unresolved, initial_required_copy.
  by destruct (filter _ (filter _ all_required_params)).
Qed.
End validation_properties.

(** C3, counterexample.  Two required names, aa and bb, that nobody
    provides and the caller does not know: both are unresolved, and the
    exception names aa without bb. *)
Lemma validation_names_one_counterexample :
  unresolved (∅ : gmap string nat) ["aa"; "bb"] [] = ["aa"; "bb"] ∧
  ∃ msg,
    call_custom_functions (script_module []) (∅ : gmap string nat)
      ["aa"; "bb"] [] [] 10 = Raises (Exception msg) ∧
    py_in "aa" msg = true ∧ py_in "bb" msg = false.
Proof.
  split; [reflexivity|]. eexists. split; [reflexivity|].
  split; vm_compute; reflexivity.
Qed.

(** Through [execute_functions_in_order] the check compares the required
    names with themselves, so it raises for no script: the script below
    requires q, which nothing provides, and reaches the scheduling loop. *)
Lemma execute_functions_in_order_skips_validation :
  execute_functions_in_order (pure_eval eval_list_display)
    (script_module [("f", (myFeature.init ["q"] ["x"], konst {["x" := 1]}))])
    script_requires_unknown (∅ : gmap string nat) 5 () = (OutOfFuel, ()).
Proof. vm_compute. reflexivity. Qed.

(** ** A dependency cycle *)

Lemma cycle_round (copy queue : list string) (n : nat)
    (rounds : gmap nat (list string)) (extracted : gmap string nat) :
  "x" ∈ copy → "y" ∈ copy →
  round cycle_defs ∅ cycle_table
    (SchedState copy queue ["A"; "B"] n rounds extracted) =
  (Return (),
   SchedState copy ((queue ++ ["A"]) ++ ["B"]) ["A"; "B"] (S n)
     (<[n := []]> rounds) extracted).
Proof.
  intros Hx Hy.
  assert (HA : blocked copy ["y"] = true).
  { apply blocked_true. exists "y". split; [done|by left]. }
  assert (HB : blocked copy ["x"] = true).
  { apply blocked_true. exists "x". split; [done|by left]. }
  unfold round, open_round, next_round. simpl.
  unfold visit at 1. simpl. rewrite HA. simpl.
  unfold visit at 1. simpl. rewrite HB. reflexivity.
Qed.

Lemma cycle_while (fuel : nat) : ∀ copy queue n rounds extracted,
  "x" ∈ copy → "y" ∈ copy →
  while_funcnames cycle_defs ∅ cycle_table fuel
    (SchedState copy queue ["A"; "B"] n rounds extracted) = OutOfFuel.
Proof.
  induction fuel as [|fuel IH]; intros copy queue n rounds extracted Hx Hy;
    [reflexivity|].
  simpl. rewrite cycle_round by done. by apply IH.
Qed.

Lemma initial_required_copy_nothing_known {V : Type} (req : list string) :
  initial_required_copy (∅ : gmap string V) req = req.
Proof.
  unfold initial_required_copy. induction req as [|r req IH]; [done|].
  rewrite filter_cons_True by apply lookup_empty. by f_equal.
Qed.

Lemma cycle_call (fuel : nat) (req prov : list string) :
  "x" ∈ req → "y" ∈ req → req ⊆ prov →
  call_custom_functions cycle_defs ∅ req prov cycle_table fuel = OutOfFuel.
Proof.
  intros Hx Hy Hsub. unfold call_custom_functions.
  rewrite check_all_provided_spec, initial_required_copy_nothing_known.
  replace (filter (λ x, x ∉ prov) req) with (@nil string).
  2:{ symmetry. apply elem_of_nil_inv. intros z Hz.
      apply list_elem_of_filter in Hz as [Hout Hz]. apply Hout, Hsub, Hz. }
  unfold initial_state. rewrite initial_required_copy_nothing_known. simpl.
  by rewrite cycle_while.
Qed.

(** C2, what the code does.  On the two units of the cycle, with nothing
    known to the caller, the validation passes and the [while] loop never
    ends: whatever the fuel, [call_custom_functions] has not returned and
    has raised nothing, in whichever order the required names come; the
    same holds from the text of the script through
    [execute_functions_in_order]. *)
Theorem cycle_loops_forever (fuel : nat) :
  call_custom_functions cycle_defs ∅ ["x"; "y"] ["x"; "y"] cycle_table fuel
    = OutOfFuel ∧
  call_custom_functions cycle_defs ∅ ["y"; "x"] ["x"; "y"] cycle_table fuel
    = OutOfFuel ∧
  execute_functions_in_order (pure_eval eval_list_display) cycle_defs
    cycle_script ∅ fuel () = (OutOfFuel, ()).
Proof.
  assert (Hmem : ∀ req, (req = ["x"; "y"] ∨ req = ["y"; "x"]) →
            "x" ∈ req ∧ "y" ∈ req ∧ req ⊆ ["x"; "y"]).
  { intros req Hreq. repeat split.
    - apply list_elem_of_In. destruct Hreq as [-> | ->]; simpl; tauto.
    - apply list_elem_of_In. destruct Hreq as [-> | ->]; simpl; tauto.
    - intros z Hz%list_elem_of_In. apply list_elem_of_In.
      destruct Hreq as [-> | ->]; simpl in *; tauto. }
  split; [apply cycle_call; apply Hmem; auto|].
  split; [apply cycle_call; apply Hmem; auto|].
  unfold execute_functions_in_order.
  assert (Hparse : ∃ req,
    parse_for_req_prov_params (pure_eval eval_list_display) cycle_script () =
      (Return (cycle_table, req, req), ()) ∧
    "x" ∈ req ∧ "y" ∈ req).
  { eexists. split; [vm_compute; reflexivity|].
    split; apply list_elem_of_In; simpl; tauto. }
  destruct Hparse as (req & Hparse & Hx & Hy). rewrite Hparse.
  f_equal. by apply cycle_call.
Qed.

(** ** States of the scheduling loop *)

Section scheduler_properties.
Context {V : Type}.
Context (custom_feature_defs : string → option (myFeature.t * myFeature.callable V)).
Context (features_already_known : gmap string V).
Context (all_required_params : list string).
Context (fnames_req_prov_dict : decl_table).

Abbreviation visit' := (visit custom_feature_defs features_already_known fnames_req_prov_dict).
Abbreviation for_funcnames' :=
  (for_funcnames custom_feature_defs features_already_known fnames_req_prov_dict).
Abbreviation initial_state' :=
  (initial_state features_already_known all_required_params fnames_req_prov_dict).
Abbreviation visiting' :=
  (visiting custom_feature_defs features_already_known all_required_params
     fnames_req_prov_dict).
Abbreviation provided_by_run' := (provided_by_run fnames_req_prov_dict).
Abbreviation sched_inv' :=
  (sched_inv features_already_known all_required_params fnames_req_prov_dict).

Lemma ran_in_open_round (st : sched_state V) n funcname :
  (∀ m, is_Some (func_rounds st !! m) → m ≤ i st) →
  ran_in (open_round (next_round st)) n funcname ↔ ran_in st n funcname.
Proof.
  intros Hpast. unfold ran_in, open_round, next_round. simpl.
  assert (Hfresh : func_rounds st !! S (i st) = None).
  { destruct (func_rounds st !! S (i st)) eqn:E; [|done].
    specialize (Hpast (S (i st)) (mk_is_Some _ _ E)). lia. }
  split; intros (l & Hl & Hin).
  - destruct (decide (S (i st) = n)) as [<-|Hne].
    + rewrite lookup_insert_eq in Hl. injection Hl as <-.
      by apply elem_of_nil in Hin.
    + rewrite lookup_insert_ne in Hl by done. eauto.
  - exists l. split; [|done].
    rewrite lookup_insert_ne; [done|]. intros <-. congruence.
Qed.

Lemma sched_inv_first :
  NoDup (dict_keys fnames_req_prov_dict) → sched_inv' (open_round initial_state').
Proof.
  intros Hnd.
  assert (Hran : ∀ n f, ¬ ran_in (open_round initial_state') n f).
  { intros n f (l & Hl & Hin). simpl in Hl.
    destruct (decide (n = 0)) as [->|Hne].
    - rewrite lookup_insert_eq in Hl. injection Hl as <-.
      by apply elem_of_nil in Hin.
    - rewrite lookup_insert_ne, lookup_empty in Hl by done. done. }
  split; simpl.
  - intros x Hx. unfold initial_required_copy in Hx.
    apply list_elem_of_filter in Hx as [Hk Hx]. split; [done|]. split; [done|].
    intros (n & f & d & Hr & _). by apply (Hran n f).
  - intros x Hx Hk. left. unfold initial_required_copy.
    by apply list_elem_of_filter.
  - done.
  - intros n f Hr. by destruct (Hran n f).
  - rewrite lookup_insert_eq. eauto.
  - intros n [l Hl]. destruct (decide (n = 0)) as [->|Hne]; [done|].
    rewrite lookup_insert_ne, lookup_empty in Hl by done. done.
Qed.

Lemma sched_inv_next (st : sched_state V) :
  sched_inv' st → sched_inv' (open_round (next_round st)).
Proof.
  intros [Hs Hc Hnd Hrp Ho Hpast].
  assert (Hprov : ∀ x, provided_by_run' (open_round (next_round st)) x ↔
                       provided_by_run' st x).
  { intros x. unfold provided_by_run. split.
    - intros (n & f & d & Hr & Hd & Hx). exists n, f, d.
      split; [|done]. by apply (ran_in_open_round _ _ _ Hpast) in Hr.
    - intros (n & f & d & Hr & Hd & Hx). exists n, f, d.
      split; [|done]. by apply (ran_in_open_round _ _ _ Hpast). }
  split.
  - intros x Hx. destruct (Hs x Hx) as (? & ? & Hnp).
    split; [done|]. split; [done|]. by rewrite Hprov.
  - intros x Hx Hk. destruct (Hc x Hx Hk); [by left|right]. by rewrite Hprov.
  - done.
  - intros n f Hr. apply (ran_in_open_round _ _ _ Hpast) in Hr.
    by apply (Hrp n f).
  - simpl. rewrite lookup_insert_eq. eauto.
  - simpl. intros n [l Hl]. destruct (decide (S (i st) = n)) as [<-|Hne]; [done|].
    rewrite lookup_insert_ne in Hl by done.
    specialize (Hpast n (mk_is_Some _ _ Hl)). lia.
Qed.

Lemma visit_blocked (st : sched_state V) funcname decl :
  dict_getitem fnames_req_prov_dict funcname = Some decl →
  blocked (all_required_params_copy st) (requires decl) = true →
  visit' funcname st =
    (Return (),
     SchedState (all_required_params_copy st) (func_queue st ++ [funcname])
       (funcnames st) (i st) (func_rounds st) (all_extracted_features st)).
Proof. intros Hd Hb. unfold visit. by rewrite Hd, Hb. Qed.

Lemma visit_runnable (st : sched_state V) funcname decl :
  dict_getitem fnames_req_prov_dict funcname = Some decl →
  blocked (all_required_params_copy st) (requires decl) = false →
  ∃ res st',
    visit' funcname st = (res, st') ∧
    all_required_params_copy st' =
      filter (λ x, x ∉ provides decl) (all_required_params_copy st) ∧
    func_rounds st' = alter (λ l, l ++ [funcname]) (i st) (func_rounds st) ∧
    i st' = i st ∧
    (res = Return () →
       py_remove funcname (funcnames st) = Some (funcnames st') ∧
       ∃ self f func_result,
         custom_feature_defs funcname = Some (self, f) ∧
         myFeature.wrapped_f self f
           (build_arguments features_already_known (requires decl)
              (all_extracted_features st)) = Return func_result ∧
         all_extracted_features st' = func_result ∪ all_extracted_features st).
Proof.
  intros Hd Hb. unfold visit. rewrite Hd, Hb.
  destruct (custom_feature_defs funcname) as [[self f]|] eqn:Hdef.
  2:{ eexists _, _. split; [done|]. repeat split; done. }
  destruct (myFeature.wrapped_f self f _) as [func_result|e] eqn:Hw.
  2:{ eexists _, _. split; [done|]. repeat split; done. }
  simpl. destruct (py_remove funcname (funcnames st)) as [remaining|] eqn:Hrm.
  2:{ eexists _, _. split; [done|]. repeat split; done. }
  eexists _, _. split; [done|]. simpl. repeat split; try done.
  exists self, f, func_result. repeat split; try done.
  apply py_dict_items.
Qed.

Lemma ran_in_alter (st st' : sched_state V) funcname n u :
  is_Some (func_rounds st !! i st) →
  func_rounds st' = alter (λ l, l ++ [funcname]) (i st) (func_rounds st) →
  ran_in st' n u ↔ ran_in st n u ∨ (n = i st ∧ u = funcname).
Proof.
  intros [l0 Hl0] Hr. unfold ran_in. rewrite Hr. split.
  - intros (l & Hl & Hin). destruct (decide (i st = n)) as [<-|Hne].
    + rewrite lookup_alter_eq, Hl0 in Hl. simpl in Hl. injection Hl as <-.
      apply elem_of_app in Hin as [Hin|Hin]; [left; eauto|right].
      apply list_elem_of_singleton in Hin. done.
    + rewrite lookup_alter_ne in Hl by done. left; eauto.
  - intros [(l & Hl & Hin)|[-> ->]].
    + destruct (decide (i st = n)) as [<-|Hne].
      * exists (l ++ [funcname]). rewrite lookup_alter_eq, Hl. simpl.
        split; [done|]. apply elem_of_app. by left.
      * exists l. by rewrite lookup_alter_ne.
    + exists (l0 ++ [funcname]). rewrite lookup_alter_eq, Hl0. simpl.
      split; [done|]. apply elem_of_app. right. by apply list_elem_of_singleton.
Qed.

Lemma sched_inv_visit (st st' : sched_state V) funcname :
  sched_inv' st → funcname ∈ funcnames st →
  visit' funcname st = (Return (), st') → sched_inv' st'.
Proof.
  intros Hinv Hpend Hv.
  destruct (dict_getitem fnames_req_prov_dict funcname) as [decl|] eqn:Hd.
  2:{ unfold visit in Hv. by rewrite Hd in Hv. }
  destruct (blocked (all_required_params_copy st) (requires decl)) eqn:Hb.
  { rewrite (visit_blocked _ _ _ Hd Hb) in Hv. injection Hv as <-.
    destruct Hinv. by split. }
  destruct (visit_runnable _ _ _ Hd Hb) as (res & st1 & Hv1 & Hcopy & Hrounds & Hi & Hret).
  rewrite Hv in Hv1. injection Hv1 as <- <-.
  destruct (Hret eq_refl) as (Hrm & _).
  destruct Hinv as [Hs Hc Hnd Hrp Ho Hpast].
  destruct (py_remove_Some _ _ _ Hrm) as (_ & Hsub & Hrest).
  destruct (Hrest Hnd) as (Hgone & Hnd' & Hcov).
  assert (Hran : ∀ n u, ran_in st' n u ↔ ran_in st n u ∨ (n = i st ∧ u = funcname))
    by (intros; by apply ran_in_alter).
  assert (Hprov : ∀ x, provided_by_run' st' x ↔
                       provided_by_run' st x ∨ x ∈ provides decl).
  { intros x. unfold provided_by_run. split.
    - intros (n & u & d & Hr & Hdu & Hx). apply Hran in Hr as [Hr|[-> ->]].
      + left. eauto 10.
      + right. congruence.
    - intros [(n & u & d & Hr & Hdu & Hx)|Hx].
      + exists n, u, d. split; [|done]. apply Hran. by left.
      + exists (i st), funcname, decl. split; [|done]. apply Hran. by right. }
  split.
  - intros x Hx. rewrite Hcopy in Hx. apply list_elem_of_filter in Hx as [Hnp Hx].
    destruct (Hs x Hx) as (? & ? & Hnr). split; [done|]. split; [done|].
    rewrite Hprov. tauto.
  - intros x Hx Hk. rewrite Hprov, Hcopy.
    destruct (Hc x Hx Hk) as [Hin|Hpr]; [|tauto].
    destruct (decide (x ∈ provides decl)); [tauto|].
    left. by apply list_elem_of_filter.
  - done.
  - intros n u Hr. apply Hran in Hr as [Hr|[-> ->]]; [|done].
    intros Hu. by apply (Hrp n u Hr), Hsub.
  - rewrite Hi, Hrounds. destruct Ho as [l Hl].
    rewrite lookup_alter_eq, Hl. simpl. eauto.
  - intros n [l Hl]. rewrite Hi. apply Hpast. rewrite Hrounds in Hl.
    destruct (decide (i st = n)) as [<-|Hne]; [done|].
    rewrite lookup_alter_ne in Hl by done. eauto.
Qed.

Lemma visiting_inv (st : sched_state V) :
  NoDup (dict_keys fnames_req_prov_dict) → visiting' st → sched_inv' st.
Proof.
  intros Hnd Hvis. induction Hvis as [|st funcname st' _ IH Hpend Hv|st _ IH].
  - by apply sched_inv_first.
  - by apply (sched_inv_visit st st' funcname).
  - by apply sched_inv_next.
Qed.

(** The [for] loop only passes through such states, and its fuel never
    cuts it short. *)
Lemma for_funcnames_visiting (fuel idx : nat) (st st' : sched_state V) :
  visiting' st → for_funcnames' fuel idx st = (Return (), st') → visiting' st'.
Proof.
  revert idx st. induction fuel as [|fuel IH]; intros idx st Hvis; simpl.
  - by intros [= <-].
  - destruct (funcnames st !! idx) as [funcname|] eqn:Hidx; [|by intros [= <-]].
    destruct (visit' funcname st) as [[[]|e] st1] eqn:Hv; [|done].
    apply IH. apply (visiting_visit st funcname); [done| |done].
    by apply list_elem_of_lookup_2 in Hidx.
Qed.

Lemma visit_pending_length (st st' : sched_state V) funcname res :
  visit' funcname st = (res, st') → length (funcnames st') ≤ length (funcnames st).
Proof.
  unfold visit. destruct (dict_getitem _ _) as [decl|]; [|by intros [= _ <-]].
  destruct (blocked _ _); [by intros [= _ <-]|].
  destruct (custom_feature_defs funcname) as [[self f]|]; [|by intros [= _ <-]].
  destruct (myFeature.wrapped_f self f _); [|by intros [= _ <-]].
  simpl. destruct (py_remove funcname (funcnames st)) eqn:Hrm; intros [= _ <-]; simpl.
  - apply py_remove_Some in Hrm as (Hlen & _). lia.
  - done.
Qed.

Lemma for_funcnames_fuel (fuel idx : nat) (st : sched_state V) :
  length (funcnames st) ≤ fuel + idx →
  for_funcnames' (S fuel) idx st = for_funcnames' fuel idx st.
Proof.
  revert idx st. induction fuel as [|fuel IH]; intros idx st Hlen.
  - simpl. rewrite lookup_ge_None_2; [done|]. simpl in Hlen. lia.
  - change (for_funcnames' (S (S fuel)) idx st) with
      (match funcnames st !! idx with
       | None => (Return (), st)
       | Some funcname =>
           match visit' funcname st with
           | (Return _, st') => for_funcnames' (S fuel) (S idx) st'
           | (Raise e, st') => (Raise e, st')
           end
       end).
    simpl. destruct (funcnames st !! idx) as [funcname|]; [|done].
    destruct (visit' funcname st) as [[[]|e] st1] eqn:Hv; [|done].
    apply IH. apply visit_pending_length in Hv. lia.
Qed.

(** In a stall a round runs nothing and leaves the pending list and the
    outstanding names as they are, so the [while] loop has no end. *)
Lemma stalled_for_funcnames (fuel : nat) : ∀ idx (st : sched_state V),
  stalled fnames_req_prov_dict st →
  ∃ st', for_funcnames' fuel idx st = (Return (), st') ∧
         funcnames st' = funcnames st ∧
         all_required_params_copy st' = all_required_params_copy st.
Proof.
  induction fuel as [|fuel IH]; intros idx st Hstall; simpl; [by eexists|].
  destruct (funcnames st !! idx) as [u|] eqn:Hu; [|by eexists].
  destruct (Hstall u) as (decl & Hd & Hb); [by apply list_elem_of_lookup_2 in Hu|].
  rewrite (visit_blocked _ _ _ Hd Hb).
  destruct (IH (S idx)
              (SchedState (all_required_params_copy st) (func_queue st ++ [u])
                 (funcnames st) (i st) (func_rounds st) (all_extracted_features st)))
    as (st' & Hfor & Hf & Hc); [done|].
  exists st'. by rewrite Hfor.
Qed.

Lemma stalled_never_returns (fuel : nat) : ∀ st : sched_state V,
  stalled fnames_req_prov_dict st → funcnames st ≠ [] →
  while_funcnames custom_feature_defs features_already_known
    fnames_req_prov_dict fuel st = OutOfFuel.
Proof.
  induction fuel as [|fuel IH]; intros st Hstall Hne; [done|]. simpl.
  rewrite bool_decide_eq_true_2 by (destruct (funcnames st); [done|simpl; lia]).
  unfold round.
  destruct (stalled_for_funcnames (length (funcnames (open_round st))) 0
              (open_round st) Hstall) as (st' & -> & Hf & Hc).
  apply IH.
  - intros u Hu. simpl in *. rewrite Hf in Hu. rewrite Hc. by apply Hstall.
  - simpl. by rewrite Hf.
Qed.

Lemma for_funcnames_more_fuel (extra : nat) (st : sched_state V) :
  for_funcnames' (length (funcnames st) + extra) 0 st =
  for_funcnames' (length (funcnames st)) 0 st.
Proof.
  induction extra as [|extra IH]; [by rewrite Nat.add_0_r|].
  rewrite Nat.add_succ_r, for_funcnames_fuel by lia. exact IH.
Qed.

(** Every round of the [while] loop opens in such a state: a round starts
    from the initial state or from the end of a round, and ends, unless an
    exception leaves it, at the end of a round. *)
Lemma round_visiting (st st' : sched_state V) :
  st = initial_state' ∨ (∃ v, visiting' v ∧ st = next_round v) →
  round custom_feature_defs features_already_known fnames_req_prov_dict st =
    (Return (), st') →
  visiting' (open_round st) ∧ ∃ v, visiting' v ∧ st' = next_round v.
Proof.
  intros Hstart Hround.
  assert (Hopen : visiting' (open_round st)).
  { destruct Hstart as [->|(v & Hv & ->)];
      [apply visiting_first|by apply visiting_next]. }
  split; [done|]. unfold round in Hround.
  destruct (for_funcnames' _ 0 (open_round st)) as [[[]|e] st1] eqn:Hfor; [|done].
  injection Hround as <-. exists st1. split; [|done].
  by apply (for_funcnames_visiting _ _ _ _ Hopen Hfor).
Qed.

End scheduler_properties.

Lemma chain_keys_nodup : NoDup (dict_keys chain_table).
Proof. apply (bool_decide_unpack _). vm_compute. exact I. Qed.



(** ** Which value a name ends up with *)

Section precedence_properties.
Context {V : Type}.
Context (custom_feature_defs : string → option (myFeature.t * myFeature.callable V)).
Context (features_already_known : gmap string V).
Context (fnames_req_prov_dict : decl_table).

Abbreviation known_value' := (known_value features_already_known).

Lemma build_arguments_from (reqs : list string) (extracted acc : gmap string V) k :
  foldl (λ arguments req,
           match features_already_known !! req with
           | Some v => <[req := v]> arguments
           | None =>
               match extracted !! req with
               | Some v => <[req := v]> arguments
               | None => arguments
               end
           end) acc reqs !! k =
  match (if decide (k ∈ reqs) then known_value' extracted k else None) with
  | Some v => Some v
  | None => acc !! k
  end.
Proof.
  revert acc. induction reqs as [|r reqs IH]; intros acc; simpl.
  - destruct (decide (k ∈ [])) as [Hin|]; [by apply elem_of_nil in Hin|done].
  - rewrite IH. unfold known_value.
    destruct (decide (r = k)) as [->|Hne].
    + rewrite (decide_True (P := k ∈ k :: reqs)) by (by left).
      destruct (features_already_known !! k) eqn:Hf.
      * destruct (decide (k ∈ reqs)); [done|by rewrite lookup_insert_eq].
      * destruct (extracted !! k) eqn:He.
        -- destruct (decide (k ∈ reqs)); [done|by rewrite lookup_insert_eq].
        -- by destruct (decide (k ∈ reqs)).
    + assert (Hacc : (match features_already_known !! r with
                      | Some v => <[r := v]> acc
                      | None => match extracted !! r with
                                | Some v => <[r := v]> acc
                                | None => acc
                                end
                      end) !! k = acc !! k).
      { destruct (features_already_known !! r); [by rewrite lookup_insert_ne|].
        destruct (extracted !! r); [by rewrite lookup_insert_ne|done]. }
      rewrite Hacc. destruct (decide (k ∈ reqs)) as [Hin|Hout].
      * by rewrite decide_True by (by right).
      * rewrite decide_False; [done|]. intros [->|?]%elem_of_cons; done.
Qed.

Lemma build_arguments_lookup (reqs : list string) (extracted : gmap string V) k :
  build_arguments features_already_known reqs extracted !! k =
  if decide (k ∈ reqs) then known_value' extracted k else None.
Proof.
  unfold build_arguments. rewrite build_arguments_from, lookup_empty.
  by destruct (if decide (k ∈ reqs) then _ else _).
Qed.

(** C4, as the code has it.  Whenever a unit is called, each required
    name the caller supplied is passed with the caller's value, whatever
    the units have provided under that name.  The outputs of the units go
    to the separate [all_extracted_features], the mapping that is
    returned: whenever the call of a pending unit found runnable returns,
    the visit returns and the result of the call is laid over what was
    extracted before, so that for a name it returns, its value replaces
    the earlier one. *)
Theorem unit_result_replaces_extracted
    (st : sched_state V) (funcname : string) (decl : reqs_provs)
    (self : myFeature.t) (f : myFeature.callable V)
    (func_result : gmap string V) :
  dict_getitem fnames_req_prov_dict funcname = Some decl →
  blocked (all_required_params_copy st) (requires decl) = false →
  funcname ∈ funcnames st →
  custom_feature_defs funcname = Some (self, f) →
  myFeature.wrapped_f self f
    (build_arguments features_already_known (requires decl)
       (all_extracted_features st)) = Return func_result →
  (∀ req v, req ∈ requires decl → features_already_known !! req = Some v →
     build_arguments features_already_known (requires decl)
       (all_extracted_features st) !! req = Some v) ∧
  ∃ st',
    visit custom_feature_defs features_already_known fnames_req_prov_dict
      funcname st = (Return (), st') ∧
    (∀ k, all_extracted_features st' !! k =
          match func_result !! k with
          | Some v => Some v
          | None => all_extracted_features st !! k
          end).
Proof.
  intros Hd Hb Hpend Hdef Hw. split.
  - intros req v Hreq Hk. rewrite build_arguments_lookup.
    rewrite decide_True by done. unfold known_value. by rewrite Hk.
  - destruct (py_remove_elem funcname (funcnames st) Hpend) as [remaining Hrm].
    destruct (visit_runnable custom_feature_defs features_already_known
                fnames_req_prov_dict st funcname decl Hd Hb)
      as (res & st1 & Hv & _ & _ & _ & Hret).
    assert (Hres : res = Return ()).
    { unfold visit in Hv. rewrite Hd in Hv. cbv beta iota zeta in Hv.
      rewrite Hb, Hdef, Hw, Hrm in Hv. by injection Hv as <- _. }
    subst res. exists st1. split; [done|].
    destruct (Hret eq_refl) as (_ & self' & f' & fr & Hdef' & Hw' & Hext).
    rewrite Hdef in Hdef'. injection Hdef' as <- <-.
    rewrite Hw in Hw'. injection Hw' as <-.
    intros k. rewrite Hext, lookup_union.
    by destruct (func_result !! k), (all_extracted_features st !! k).
Qed.
End precedence_properties.

(** The caller knows t and x = 5; P has run and x = 7 is extracted.  Q,
    which requires x, is called with the caller's 5, and the 105 it
    returns takes the place of the 7. *)
Lemma unit_result_replaces_witness :
  round override_defs {["t" := 0; "x" := 5]} override_table
    (initial_state {["t" := 0; "x" := 5]} ["t"; "x"] override_table) =
    (Return (), SchedState [] [] ["Q"] 1 {[0 := ["P"]]} {["x" := 7]}) ∧
  build_arguments ({["t" := 0; "x" := 5]} : gmap string nat) ["x"] {["x" := 7]}
    !! "x" = Some 5 ∧
  ∃ st',
    visit override_defs {["t" := 0; "x" := 5]} override_table "Q"
      (SchedState [] [] ["Q"] 1 {[0 := ["P"]; 1 := []]} {["x" := 7]}) =
      (Return (), st') ∧
    all_extracted_features st' !! "x" = Some 105.
Proof.
  split; [vm_compute; reflexivity|].
  pose (st := SchedState (V := nat) [] [] ["Q"] 1 {[0 := ["P"]; 1 := []]}
                {["x" := 7]}).
  assert (Hp : "Q" ∈ funcnames st)
    by (apply (bool_decide_unpack _); vm_compute; exact I).
  assert (Hx : "x" ∈ requires (ReqsProvs ["x"] ["x"]))
    by (apply (bool_decide_unpack _); vm_compute; exact I).
  assert (Hb : blocked (all_required_params_copy st) ["x"] = false)
    by (vm_compute; reflexivity).
  assert (Hw : myFeature.wrapped_f (myFeature.init ["x"] ["x"])
            (λ kwargs, Return {["x" := 100 + default 0 (kwargs !! "x")]})
            (build_arguments ({["t" := 0; "x" := 5]} : gmap string nat) ["x"]
               (all_extracted_features st)) = Return {["x" := 105]})
    by (vm_compute; reflexivity).
  destruct (unit_result_replaces_extracted override_defs {["t" := 0; "x" := 5]}
              override_table st "Q" (ReqsProvs ["x"] ["x"])
              (myFeature.init ["x"] ["x"])
              (λ kwargs, Return {["x" := 100 + default 0 (kwargs !! "x")]})
              {["x" := 105]} eq_refl Hb Hp eq_refl Hw)
    as [Hargs (st' & Hv & Hmerge)].
  split; [exact (Hargs "x" 5 Hx eq_refl)|].
  exists st'. split; [exact Hv|]. rewrite (Hmerge "x"). reflexivity.
Defined.

(** C4, counterexample.  The first round runs U1 and leaves z = 1 in
    [all_extracted_features]; the second runs U2 and leaves z = 2, which
    is what [call_custom_functions] returns: the value written first has
    been replaced. *)
Lemma first_writer_counterexample :
  ∃ st1 st2,
    round twice_defs {["t" := 0]} twice_table
      (initial_state {["t" := 0]} ["t"] twice_table) = (Return (), st1) ∧
    all_extracted_features st1 !! "z" = Some 1 ∧
    round twice_defs {["t" := 0]} twice_table st1 = (Return (), st2) ∧
    all_extracted_features st2 !! "z" = Some 2 ∧
    call_custom_functions twice_defs {["t" := 0]} ["t"] ["z"] twice_table 5 =
      Returns {["z" := 2]}.
Proof.
  eexists _, _. split; [vm_compute; reflexivity|].
  split; [vm_compute; reflexivity|].
  split; [vm_compute; reflexivity|].
  split; vm_compute; reflexivity.
Qed.

(** The caller knows x = 5 and the unit P provides x = 7: the unit Q that
    requires x is called with 5, and the mapping returned holds 7. *)
Lemma caller_value_shadowed_in_result :
  call_custom_functions shadow_defs {["t" := 0; "x" := 5]} ["t"; "x"]
    ["x"; "seen"] shadow_table 5 = Returns {["x" := 7; "seen" := 5]}.
Proof. vm_compute. reflexivity. Qed.

(** ** The declaration extractor *)

Lemma match_pieces_field (ps : list piece) : ∀ (s : string) named name,
  match_pieces ps s = Some named → Field name ∈ ps → is_Some (named !! name).
Proof.
  induction ps as [|p ps IH]; intros s named name Hm Hin.
  { by apply elem_of_nil in Hin. }
  destruct p as [l|n]; simpl in Hm.
  - destruct (strip_lit l s) as [rest|]; [|done].
    apply elem_of_cons in Hin as [?|Hin]; [done|]. by apply (IH rest).
  - revert Hm. generalize EmptyString as taken.
    induction s as [|c s IHs]; intros taken Hm; [done|].
    destruct (match_pieces ps s) as [named'|] eqn:Hrest.
    + injection Hm as <-. apply elem_of_cons in Hin as [[= ->]|Hin].
      * rewrite lookup_insert_eq. eauto.
      * destruct (decide (n = name)) as [->|Hne];
          [rewrite lookup_insert_eq; eauto|rewrite lookup_insert_ne by done].
        by apply (IH s).
    + by apply (IHs (String c taken)).
Qed.

Lemma parse_myFeature_named (s : string) named :
  parse myFeature_format s = Some named →
  ∃ req_text prov_text,
    named !! "requires" = Some req_text ∧ named !! "provides" = Some prov_text.
Proof.
  intros Hp.
  destruct (match_pieces_field _ _ _ "requires" Hp) as [rt Hrt].
  { unfold myFeature_format. apply list_elem_of_In. simpl. tauto. }
  destruct (match_pieces_field _ _ _ "provides" Hp) as [pt Hpt].
  { unfold myFeature_format. apply list_elem_of_In. simpl. tauto. }
  eauto.
Qed.


Lemma dict_getitem_setitem (d : decl_table) k v :
  dict_getitem (dict_setitem d k v) k = Some v.
Proof.
  induction d as [|[k' v'] d IH]; simpl.
  - by rewrite decide_True.
  - destruct (decide (k' = k)) as [->|Hne]; simpl.
    + by rewrite decide_True.
    + by rewrite decide_False.
Qed.

Lemma dict_getitem_setitem_ne (d : decl_table) k k0 v :
  k0 ≠ k → dict_getitem (dict_setitem d k v) k0 = dict_getitem d k0.
Proof.
  intros Hne. induction d as [|[k' v'] d IH]; simpl.
  - by rewrite decide_False.
  - destruct (decide (k' = k)) as [->|Hne']; simpl.
    + by rewrite !decide_False.
    + destruct (decide (k' = k0)); [done|exact IH].
Qed.

Lemma dict_keys_setitem (d : decl_table) k v :
  dict_keys (dict_setitem d k v) =
  if decide (k ∈ dict_keys d) then dict_keys d else dict_keys d ++ [k].
Proof.
  unfold dict_keys. induction d as [|[k' v'] d IH].
  - done.
  - cbn [dict_setitem]. destruct (decide (k' = k)) as [->|Hne].
    + rewrite !fmap_cons. cbn [fst]. rewrite decide_True; [done|]. by left.
    + rewrite !fmap_cons. cbn [fst]. rewrite IH.
      destruct (decide (k ∈ d.*1)) as [Hin|Hout].
      * rewrite decide_True; [done|]. by right.
      * rewrite decide_False; [done|]. intros [->|?]%elem_of_cons; done.
Qed.

Lemma elem_of_list_set (xs : list string) x : x ∈ list_set xs ↔ x ∈ xs.
Proof. unfold list_set. by rewrite elem_of_elements, elem_of_list_to_set. Qed.

Section extractor_properties.
Context {W : Type} (py_eval : string → eff W (list string)).

(** What the loop body does with a line containing the annotation that is
    followed by a line containing [def ]. *)
Lemma extract_pair_decorated (line next : string) d rq pv (w : W) :
  is_decorated_def line next = true →
  extract_pair py_eval line next (d, rq, pv) w =
  match parse myFeature_format (strip line) with
  | None => (Raise none_has_no_named, w)
  | Some nm =>
      match nm !! "requires", nm !! "provides" with
      | Some req_text, Some prov_text =>
          match py_eval req_text w with
          | (Raise e, w1) => (Raise e, w1)
          | (Return reqs, w1) =>
              match py_eval prov_text w1 with
              | (Raise e, w2) => (Raise e, w2)
              | (Return provs, w2) =>
                  match named (W := W) (parse def_format (strip next)) "funcname" w2 with
                  | (Raise e, w2') => (Raise e, w2')
                  | (Return funcname, w2') =>
                      match py_eval req_text w2' with
                      | (Raise e, w3) => (Raise e, w3)
                      | (Return reqs', w3) =>
                          match py_eval prov_text w3 with
                          | (Raise e, w4) => (Raise e, w4)
                          | (Return provs', w4) =>
                              (Return
                                 (dict_setitem d funcname (ReqsProvs reqs provs),
                                  list_set (rq ++ list_set reqs'),
                                  list_set (pv ++ list_set provs')), w4)
                          end
                      end
                  end
              end
          end
      | _, _ => (extract_pair py_eval line next (d, rq, pv) w)
      end
  end.
Proof.
  intros Hdec. unfold extract_pair. rewrite Hdec.
  destruct (parse myFeature_format (strip line)) as [nm|] eqn:Hp; [|done].
  destruct (parse_myFeature_named _ _ Hp) as (rt & pt & Hrt & Hpt).
  rewrite Hrt, Hpt. unfold eff_bind.
  assert (Hn : ∀ key v (w0 : W), nm !! key = Some v →
            named (Some nm) key w0 = (Return v, w0)).
  { intros key v w0 Hk. unfold named. by rewrite Hk. }
  rewrite (Hn _ _ w Hrt).
  destruct (py_eval rt w) as [[reqs|e] w1]; [|done].
  rewrite (Hn _ _ w1 Hpt).
  destruct (py_eval pt w1) as [[provs|e] w2]; [|done].
  destruct (named (parse def_format (strip next)) "funcname" w2)
    as [[funcname|e] w2']; [|done].
  rewrite (Hn _ _ w2' Hrt).
  destruct (py_eval rt w2') as [[reqs'|e] w3]; [|done].
  rewrite (Hn _ _ w3 Hpt).
  by destruct (py_eval pt w3) as [[provs'|e] w4].
Qed.





Lemma extract_lines_first_decorated (before : list string) line next after st (w : W) :
  no_decorated_def (before ++ [line]) = true →
  extract_lines py_eval (before ++ line :: next :: after) st w =
  match extract_pair py_eval line next st w with
  | (Return st', w') => extract_lines py_eval (next :: after) st' w'
  | (Raise e, w') => (Raise e, w')
  end.
Proof.
  revert st w. induction before as [|b before IH]; intros st w Hno; [done|].
  destruct before as [|b' before].
  - simpl in Hno. rewrite andb_true_r in Hno. apply negb_true_iff in Hno.
    change (extract_lines py_eval ([b] ++ line :: next :: after) st w) with
      (eff_bind (extract_pair py_eval b line st)
         (λ st', extract_lines py_eval (line :: next :: after) st') w).
    unfold eff_bind at 1. unfold extract_pair at 1.
    destruct st as [[d rq] pv]. rewrite Hno. reflexivity.
  - change (no_decorated_def ((b :: b' :: before) ++ [line])) with
      (negb (is_decorated_def b b') && no_decorated_def ((b' :: before) ++ [line]))
      in Hno.
    apply andb_true_iff in Hno as [Hpair Hrest]. apply negb_true_iff in Hpair.
    change (extract_lines py_eval ((b :: b' :: before) ++ line :: next :: after) st w)
      with (eff_bind (extract_pair py_eval b b' st)
              (λ st', extract_lines py_eval ((b' :: before) ++ line :: next :: after) st') w).
    unfold eff_bind at 1. unfold extract_pair at 1.
    destruct st as [[d rq] pv]. rewrite Hpair. unfold eff_ret.
    by apply IH.
Qed.





End extractor_properties.








(** An annotation whose next line contains [def ] without being a header
    of the expected shape does stop the extraction. *)
Lemma bad_header_raises :
  parse_for_req_prov_params (pure_eval eval_list_display)
    ("@myFeature(requires=['t'], provides=['x'])" +:+ nl +:+ "def f:" +:+ nl +:+
     "    pass" +:+ nl) () = (Raise none_has_no_named, ()).
Proof. vm_compute. reflexivity. Qed.






(** ** Isolated execution *)

Section isolated_properties.
Context {D V Client : Type}.
Context (PROJECT_PATH_LINK PROJECT_PATH TMP_CUSTOM_FEATS_FOLDER : string).
Context (uuid4_str10 : eff (host D) string).
Context (get_docker_client : eff (host D) Client).
Context (create_container : Client → string → string → eff (host D) string).
Context (start wait logs : Client → string → eff (host D) unit).
Context (docker_copy : Client → string → string → string → eff (host D) unit).
Context (load_results : string → eff (host D) (gmap string V)).
Context (remove_container : Client → string → eff (host D) unit).

Lemma remove_tmp_files_spec (path_to_tmp_dir : string) (w : host D) :
  ∃ w', remove_tmp_files TMP_CUSTOM_FEATS_FOLDER path_to_tmp_dir w = (Return (), w') ∧
        daemon w' = daemon w ∧ files w' ⊆ files w ∧
        (path_to_tmp_dir ∉ files w') ∧
        (∀ p, below path_to_tmp_dir p = true → p ∉ files w').
Proof.
  eexists. split; [reflexivity|]. simpl. split; [done|].
  set (kept := filter _ (files w)).
  assert (Hsub : ∀ p, p ∈ kept ∖ {[path_join TMP_CUSTOM_FEATS_FOLDER "custom_feature_defs.py"]}
                        ∖ {[path_join TMP_CUSTOM_FEATS_FOLDER "custom_feature_defs.pyc"]}
                        ∖ {[path_join TMP_CUSTOM_FEATS_FOLDER "__init__.pyc"]} →
                   p ∈ kept).
  { intros p Hp. repeat apply elem_of_difference in Hp as [Hp _]. done. }
  split; [|split].
  - intros p Hp. apply Hsub in Hp. unfold kept in Hp.
    by apply elem_of_filter in Hp as [_ ?].
  - intros Hp. apply Hsub in Hp. unfold kept in Hp.
    apply elem_of_filter in Hp as [[Hne _] _]. done.
  - intros p Hbelow Hp. apply Hsub in Hp. unfold kept in Hp.
    apply elem_of_filter in Hp as [[_ Hnb] _]. apply Hnb. by rewrite Hbelow.
Qed.

(** C8, as the code has it.  In every run in which the staging succeeded
    (the directory was made and the script and the data copied into it),
    the container step is followed by [remove_tmp_files] whether it
    returned or raised: afterwards neither the staging directory nor any
    path below it exists, the cleanup raises nothing, and the caller gets
    exactly what the container step returned or raised, the exception
    itself and no other one in its place. *)
Theorem staging_removed_after_container_step
    (script_fpath : string) (features_already_known : gmap string V)
    (container_name path_to_tmp_dir : string) (w w0 w1 w2 : host D) :
  let run :=
    extract_feats_in_docker_container PROJECT_PATH_LINK PROJECT_PATH
      get_docker_client create_container start wait logs docker_copy
      load_results remove_container container_name path_to_tmp_dir w2 in
  generate_random_str uuid4_str10 w = (Return container_name, w0) →
  make_tmp_dir PROJECT_PATH_LINK PROJECT_PATH uuid4_str10 w0 =
    (Return path_to_tmp_dir, w1) →
  copy_data_to_tmp_dir path_to_tmp_dir script_fpath features_already_known w1 =
    (Return (), w2) →
  ∃ w',
    docker_extract_features PROJECT_PATH_LINK PROJECT_PATH TMP_CUSTOM_FEATS_FOLDER
      uuid4_str10 get_docker_client create_container start wait logs docker_copy
      load_results remove_container script_fpath features_already_known w =
      (run.1, w') ∧
    (path_to_tmp_dir ∉ files w') ∧
    (∀ p, below path_to_tmp_dir p = true → p ∉ files w') ∧
    files w' ⊆ files run.2 ∧ daemon w' = daemon run.2.
Proof.
  intros run Hname Hdir Hcopy. subst run.
  destruct (extract_feats_in_docker_container _ _ _ _ _ _ _ _ _ _ _ _ w2)
    as [r wr] eqn:Hrun.
  destruct (remove_tmp_files_spec path_to_tmp_dir wr)
    as (w' & Hrm & Hdaemon & Hsub & Hgone & Hbelow).
  exists w'. split; [|done].
  unfold docker_extract_features, eff_bind. rewrite Hname, Hdir, Hcopy.
  unfold try_finally. by rewrite Hrun, Hrm.
Qed.
End isolated_properties.

Lemma staging_removed_witness :
  ∃ w',
    crashing_run "/scripts/feats.py" sample_host = (Raise crash, w') ∧
    ("/proj/tmp/0123456789" ∉ files w') ∧
    (∀ p, below "/proj/tmp/0123456789" p = true → p ∉ files w') ∧
    files w' ⊆ files sample_host ∪
      {["/proj/tmp"; "/proj/tmp/0123456789";
        "/proj/tmp/0123456789/custom_feature_defs.py";
        "/proj/tmp/0123456789/features_already_known.pkl";
        "/proj/tmp/0123456789/__init__.py"]} ∧
    daemon w' = ().
Proof.
  pose (w2 := Host ({["/proj/tmp/0123456789/__init__.py"]} ∪
                    ({["/proj/tmp/0123456789/features_already_known.pkl"]} ∪
                     ({["/proj/tmp/0123456789/custom_feature_defs.py"]} ∪
                      ({["/proj/tmp/0123456789"]} ∪ ({["/proj/tmp"]} ∪ files sample_host))))) ()
            : host unit).
  destruct (staging_removed_after_container_step (V := nat) "/link" "/proj" "/feats"
              sample_uuid (eff_ret ()) (λ _ _ _, eff_ret "cid")
              (λ _ _, eff_raise crash) (λ _ _, eff_ret ()) (λ _ _, eff_ret ())
              (λ _ _ _ _, eff_ret ()) (λ _, eff_ret ∅) (λ _ _, eff_ret ())
              "/scripts/feats.py" ∅ "0123456789" "/proj/tmp/0123456789"
              sample_host sample_host
              (Host ({["/proj/tmp/0123456789"]} ∪ ({["/proj/tmp"]} ∪ files sample_host)) ()) w2)
    as (w' & Hrun & Hgone & Hbelow & Hsub & Hd).
  - reflexivity.
  - vm_compute. reflexivity.
  - vm_compute. reflexivity.
  - exists w'. split; [exact Hrun|]. split; [exact Hgone|].
    split; [exact Hbelow|]. split; [|exact Hd].
    intros p Hp. apply Hsub in Hp. simpl in Hp. set_solver.
Defined.

(** C8, counterexample.  The container crashes after the staging: the
    staging directory is removed (the directory /proj/tmp that was made
    to hold it stays), and the error the caller gets is the crash itself,
    of class APIError; no IsolatedExecutionError is made. *)
Lemma crash_surfaces_unwrapped_counterexample :
  crashing_run "/scripts/feats.py" sample_host =
    (Raise crash, Host ({["/proj/tmp"]} ∪ files sample_host) ()) ∧
  exn_class crash = "APIError" ∧
  exn_class crash ≠ "IsolatedExecutionError".
Proof.
  split; [vm_compute; reflexivity|]. split; [reflexivity|]. discriminate.
Qed.

(** When the staging itself fails (here the script is missing), nothing
    removes the directory that was made. *)
Lemma staging_failure_leaves_directory :
  crashing_run "/scripts/missing.py" sample_host =
    (Raise (BuiltinError "IOError" "/scripts/missing.py"),
     Host ({["/proj/tmp/0123456789"]} ∪ ({["/proj/tmp"]} ∪ files sample_host)) ()).
Proof. vm_compute. reflexivity. Qed.

(** An exception of [remove_container] in the cleanup of the container
    takes the place of the crash. *)
Lemma container_cleanup_masks_crash :
  extract_feats_in_docker_container (V := nat) "/link" "/proj"
    (eff_ret ()) (λ _ _ _, eff_ret "cid")
    (λ _ _, eff_raise crash) (λ _ _, eff_ret ()) (λ _ _, eff_ret ())
    (λ _ _ _ _, eff_ret ()) (λ _, eff_ret ∅)
    (λ _ _, eff_raise (BuiltinError "ConnectionError" "daemon gone"))
    "name" "/proj/tmp/0123456789" sample_host =
  (Raise (BuiltinError "ConnectionError" "daemon gone"), sample_host).
Proof. vm_compute. reflexivity. Qed.

(** ** The caller's dictionary in [generate_custom_features] *)

Section generate_properties.
Context {V : Type}.
Context (np_array : V → V) (py_len : V → nat).
Context (default_features_already_known : nat).
Context (is_running_in_docker docker_images_available no_docker : bool).
Context (docker_images_available_again : bool).
Context (run_in_process run_in_container : string → gmap string V → result (gmap string V)).

Abbreviation generate' :=
  (generate_custom_features np_array py_len default_features_already_known
     is_running_in_docker docker_images_available no_docker
     docker_images_available_again run_in_process run_in_container).

(** What lines 565-573 leave under a key. *)
Lemma fill_known_lookup (t m : V) (e : option V) (d : gmap string V) (k : string) :
  fill_known np_array py_len t m e d !! k =
  if decide (k = "t") then Some (np_array (default t (d !! "t")))
  else if decide (k = "m") then Some (np_array (default m (d !! "m")))
  else if decide (k = "e") then
    match d !! "e" with
    | Some v => Some (np_array v)
    | None =>
        match e with
        | Some e' =>
            if bool_decide (py_len e' = py_len m) then Some (np_array e') else None
        | None => None
        end
    end
  else d !! k.
Proof.
  unfold fill_known.
  set (d1 := if decide (d !! "t" = None) then <["t" := t]> d else d).
  set (d2 := if decide (d1 !! "m" = None) then <["m" := m]> d1 else d1).
  set (d3 := match e with
             | Some e' =>
                 if bool_decide (py_len e' = py_len m) && bool_decide (d2 !! "e" = None)
                 then <["e" := e']> d2 else d2
             | None => d2
             end).
  assert (H1 : ∀ j, d1 !! j = if decide (j = "t") then Some (default t (d !! "t"))
                              else d !! j).
  { intros j. unfold d1. destruct (d !! "t") as [v|] eqn:Ht; simpl.
    - destruct (decide (j = "t")) as [->|]; [by rewrite Ht|done].
    - destruct (decide (j = "t")) as [->|].
      + by rewrite lookup_insert_eq.
      + by rewrite lookup_insert_ne. }
  assert (H2 : ∀ j, d2 !! j = if decide (j = "m") then Some (default m (d !! "m"))
                              else d1 !! j).
  { intros j. assert (Hm1 : d1 !! "m" = d !! "m") by (by rewrite H1).
    unfold d2. rewrite Hm1. destruct (d !! "m") as [v|] eqn:Hm; simpl.
    - destruct (decide (j = "m")) as [->|]; [by rewrite Hm1|done].
    - destruct (decide (j = "m")) as [->|].
      + by rewrite lookup_insert_eq.
      + by rewrite lookup_insert_ne. }
  assert (H3 : ∀ j, d3 !! j =
            if decide (j = "e") then
              match d !! "e" with
              | Some v => Some v
              | None =>
                  match e with
                  | Some e' => if bool_decide (py_len e' = py_len m) then Some e' else None
                  | None => None
                  end
              end
            else d2 !! j).
  { intros j. assert (He : d2 !! "e" = d !! "e") by (by rewrite H2, H1).
    unfold d3. destruct e as [e'|].
    - rewrite He. destruct (bool_decide (py_len e' = py_len m)); simpl.
      + destruct (d !! "e") as [v|] eqn:Hd; simpl.
        * destruct (decide (j = "e")) as [->|]; [by rewrite He|done].
        * destruct (decide (j = "e")) as [->|].
          -- by rewrite lookup_insert_eq.
          -- by rewrite lookup_insert_ne.
      + destruct (decide (j = "e")) as [->|]; [|done]. rewrite He.
        by destruct (d !! "e").
    - destruct (decide (j = "e")) as [->|]; [|done]. rewrite He.
      by destruct (d !! "e"). }
  clearbody d3. clearbody d2. clearbody d1.
  set (conv := λ (x : gmap string V) (key : string),
         match x !! key with
         | Some v => <[key := np_array v]> x
         | None => x
         end).
  match goal with
  | |- _ = ?rhs => change (conv (conv (conv d3 "t") "m") "e" !! k = rhs)
  end.
  assert (Hconv : ∀ x key j,
            conv x key !! j =
            if decide (j = key) then np_array <$> x !! key else x !! j).
  { intros x key j. unfold conv. destruct (x !! key) as [v|] eqn:Hx.
    - destruct (decide (j = key)) as [->|].
      + by rewrite lookup_insert_eq.
      + by rewrite lookup_insert_ne.
    - destruct (decide (j = key)) as [->|]; [by rewrite Hx|done]. }
  clearbody conv.
  rewrite !Hconv, !H3, !H2, !H1. clear.
  repeat case_decide; simplify_eq; try done. simpl.
  destruct (d !! "e"); [done|]. destruct e as [e'|]; [|done].
  by destruct (bool_decide _).
Qed.

(** C10.  With an explicit [features_already_known], the dictionary at
    the caller's address is itself changed, and no other object is: t and
    m are inserted when absent, e is inserted when absent and the argument
    [e] is not None and as long as [m], and whatever then stands under t,
    m and e is replaced by its array conversion; every other key is left
    alone, and the script is run on that dictionary.  With the argument
    left out, the one default dictionary is changed in the same way, so a
    second such call finds the t and m of the first, converts them once
    more and passes them on, whatever its own [t] and [m] are. *)
Theorem caller_mapping_mutated_in_place
    (script script2 : string) (t m t2 m2 : V) (e e2 : option V)
    (address : nat) (heap : gmap nat (gmap string V)) (d d0 : gmap string V) :
  heap !! address = Some d →
  heap !! default_features_already_known = Some d0 →
  (∃ d',
     (generate' script t m e (Some address) heap).2 !! address = Some d' ∧
     (∀ other, other ≠ address →
        (generate' script t m e (Some address) heap).2 !! other = heap !! other) ∧
     d' !! "t" = Some (np_array (default t (d !! "t"))) ∧
     d' !! "m" = Some (np_array (default m (d !! "m"))) ∧
     d' !! "e" =
       match d !! "e" with
       | Some v => Some (np_array v)
       | None =>
           match e with
           | Some e' =>
               if bool_decide (py_len e' = py_len m) then Some (np_array e')
               else None
           | None => None
           end
       end ∧
     (∀ k, k ≠ "t" → k ≠ "m" → k ≠ "e" → d' !! k = d !! k) ∧
     (generate' script t m e (Some address) heap).1 =
       run_script is_running_in_docker docker_images_available no_docker
         docker_images_available_again run_in_process run_in_container script d') ∧
  (∃ d1 d2,
     let heap1 := (generate' script t m e None heap).2 in
     let heap2 := (generate' script2 t2 m2 e2 None heap1).2 in
     heap1 !! default_features_already_known = Some d1 ∧
     heap2 !! default_features_already_known = Some d2 ∧
     d1 !! "t" = Some (np_array (default t (d0 !! "t"))) ∧
     d1 !! "m" = Some (np_array (default m (d0 !! "m"))) ∧
     d2 !! "t" = Some (np_array (np_array (default t (d0 !! "t")))) ∧
     d2 !! "m" = Some (np_array (np_array (default m (d0 !! "m")))) ∧
     (generate' script2 t2 m2 e2 None heap1).1 =
       run_script is_running_in_docker docker_images_available no_docker
         docker_images_available_again run_in_process run_in_container script2 d2).
Proof.
  intros Haddr Hdef. split.
  - exists (fill_known np_array py_len t m e d).
    unfold generate_custom_features. simpl. rewrite Haddr. simpl.
    split; [by rewrite lookup_insert_eq|].
    split; [intros other Hne; by rewrite lookup_insert_ne|].
    rewrite !fill_known_lookup.
    split; [done|]. split; [done|]. split.
    + simpl. destruct (d !! "e"); [done|]. destruct e as [e'|]; [|done].
      by destruct (bool_decide _).
    + split; [|done]. intros k Ht Hm He. rewrite fill_known_lookup.
      by rewrite !decide_False.
  - exists (fill_known np_array py_len t m e d0),
           (fill_known np_array py_len t2 m2 e2 (fill_known np_array py_len t m e d0)).
    unfold generate_custom_features. simpl. rewrite Hdef. simpl.
    rewrite lookup_insert_eq. simpl. rewrite lookup_insert_eq.
    rewrite !fill_known_lookup. simpl. done.
Qed.
End generate_properties.

(** The caller's dictionary, at address 1, holds a meta-feature only; the
    default dictionary, at address 0, is still empty. *)
Lemma caller_mapping_mutated_witness :
  let heap : gmap nat (gmap string (bool * list nat)) :=
    {[0 := ∅; 1 := {["coords" := (false, [22; 33])]}]} in
  (sample_generate (false, [1; 2; 3]) (false, [1; 23; 2]) (Some (false, [5; 6; 7]))
     (Some 1) heap).2 !! 1 =
    Some {["coords" := (false, [22; 33]); "t" := (true, [1; 2; 3]);
           "m" := (true, [1; 23; 2]); "e" := (true, [5; 6; 7])]} ∧
  (sample_generate (false, [9]) (false, [9]) None None
     (sample_generate (false, [1; 2; 3]) (false, [1; 23; 2]) None None heap).2).2
    !! 0 = Some {["t" := (true, [1; 2; 3]); "m" := (true, [1; 23; 2])]}.
Proof.
  intros heap.
  destruct (caller_mapping_mutated_in_place sample_array sample_len 0 true false false
              false (λ _ known, Return known) (λ _ _, Return ∅) "feats.py" "feats.py"
              (false, [1; 2; 3]) (false, [1; 23; 2]) (false, [9]) (false, [9])
              (Some (false, [5; 6; 7])) None 1 heap
              {["coords" := (false, [22; 33])]} ∅ eq_refl eq_refl)
    as [_ _].
  split; vm_compute; reflexivity.
Defined.

(** * Further properties of the code *)

(** ** The guard on its own *)

Lemma first_absent_exists {V : Type} (names : list string) (d : gmap string V) :
  (∃ n, n ∈ names ∧ d !! n = None) →
  ∃ k, first_absent names d = Some k ∧ k ∈ names ∧ d !! k = None.
Proof.
  intros (n & Hn & Hd). destruct (first_absent names d) as [k|] eqn:Hk.
  - exists k. split; [done|]. by apply first_absent_Some in Hk.
  - destruct (proj1 (first_absent_None _ _) Hk n Hn) as [v Hv]. congruence.
Qed.

Lemma wrapped_f_returns {V : Type} (self : myFeature.t) (f : myFeature.callable V)
    (kwargs result_dict : gmap string V) :
  myFeature.wrapped_f self f kwargs = Return result_dict →
  ∀ p, p ∈ myFeature.provides self → is_Some (result_dict !! p).
Proof.
  unfold myFeature.wrapped_f.
  destruct (first_absent (myFeature.requires self) kwargs); [done|].
  destruct (f kwargs) as [r|]; [|done].
  destruct (first_absent (myFeature.provides self) r) eqn:Hp; [done|].
  intros [= <-]. by apply first_absent_None.
Qed.

Section call_properties.
Context {A V R : Type}.
Context (eq_name : string → A → result bool).
Context (contains : string → R → result bool).

Lemma check_required_outcome (names : list string) (args : list A)
    (kwargs : gmap string V) :
  match myFeature.check_required eq_name names args kwargs with
  | Return _ =>
      ∀ q, q ∈ names →
        myFeature.in_tuple eq_name q args = Return true ∨
        (myFeature.in_tuple eq_name q args = Return false ∧ is_Some (kwargs !! q))
  | Raise e =>
      (∃ q, q ∈ names ∧ myFeature.in_tuple eq_name q args = Raise e) ∨
      (∃ q, q ∈ names ∧ myFeature.in_tuple eq_name q args = Return false ∧
            kwargs !! q = None ∧
            e = MissingRequiredParameterError (missing_arg_message q))
  end.
Proof.
  induction names as [|n names IH]; simpl.
  { by intros q ?%elem_of_nil. }
  assert (Hlater :
    match myFeature.check_required eq_name names args kwargs with
    | Return _ =>
        (myFeature.in_tuple eq_name n args = Return true ∨
         (myFeature.in_tuple eq_name n args = Return false ∧ is_Some (kwargs !! n))) →
        ∀ q, q ∈ n :: names →
          myFeature.in_tuple eq_name q args = Return true ∨
          (myFeature.in_tuple eq_name q args = Return false ∧ is_Some (kwargs !! q))
    | Raise e =>
        (∃ q, q ∈ n :: names ∧ myFeature.in_tuple eq_name q args = Raise e) ∨
        (∃ q, q ∈ n :: names ∧ myFeature.in_tuple eq_name q args = Return false ∧
              kwargs !! q = None ∧
              e = MissingRequiredParameterError (missing_arg_message q))
    end).
  { destruct (myFeature.check_required eq_name names args kwargs) as [[]|e].
    - intros Hn q [->|Hq]%elem_of_cons; [done|by apply IH].
    - destruct IH as [(q & Hq & Hr)|(q & Hq & Hr)]; [left|right];
        exists q; (split; [by right|done]). }
  destruct (myFeature.in_tuple eq_name n args) as [[|]|e] eqn:Hin.
  - destruct (myFeature.check_required eq_name names args kwargs);
      [apply Hlater; by left|done].
  - destruct (kwargs !! n) as [v|] eqn:Hk.
    + destruct (myFeature.check_required eq_name names args kwargs);
        [apply Hlater; right; eauto|done].
    + right. exists n. split; [by left|done].
  - left. exists n. split; [by left|done].
Qed.

Lemma check_provided_outcome (names : list string) (result_dict : R) :
  match myFeature.check_provided contains names result_dict with
  | Return _ => ∀ p, p ∈ names → contains p result_dict = Return true
  | Raise e =>
      (∃ p, p ∈ names ∧ contains p result_dict = Raise e) ∨
      (∃ p, p ∈ names ∧ contains p result_dict = Return false ∧
            e = MissingRequiredReturnKeyError (missing_key_message p))
  end.
Proof.
  induction names as [|n names IH]; simpl.
  { by intros p ?%elem_of_nil. }
  destruct (contains n result_dict) as [[|]|e] eqn:Hin.
  - destruct (myFeature.check_provided contains names result_dict) as [[]|e].
    + intros p [->|Hp]%elem_of_cons; [done|by apply IH].
    + destruct IH as [(p & Hp & Hr)|(p & Hp & Hr)]; [left|right];
        exists p; (split; [by right|done]).
  - right. exists n. split; [by left|done].
  - left. exists n. split; [by left|done].
Qed.

(** X1.  For any call of the wrapper, with positional values or without:
    when every comparison of a required name with the positional values
    gives an answer and some required name is neither equal to a
    positional value nor a key of the keyword arguments, the wrapper
    raises MissingRequiredParameterError whose message names such a name,
    and it does so whatever the decorated function is: the function is not
    called. *)
Theorem guard_missing_parameter (self : myFeature.t) (args : list A)
    (kwargs : gmap string V) :
  (∀ q, q ∈ myFeature.requires self →
        ∃ found, myFeature.in_tuple eq_name q args = Return found) →
  (∃ q, q ∈ myFeature.requires self ∧
        myFeature.in_tuple eq_name q args = Return false ∧ kwargs !! q = None) →
  ∃ r, r ∈ myFeature.requires self ∧
       myFeature.in_tuple eq_name r args = Return false ∧ kwargs !! r = None ∧
       ∀ f : list A → gmap string V → result R,
         myFeature.call eq_name contains self f args kwargs =
           Raise (MissingRequiredParameterError (missing_arg_message r)).
Proof.
  intros Hanswer (q & Hq & Hpos & Hkw).
  pose proof (check_required_outcome (myFeature.requires self) args kwargs) as Hc.
  destruct (myFeature.check_required eq_name (myFeature.requires self) args kwargs)
    as [[]|e] eqn:Hcheck.
  - destruct (Hc q Hq) as [Htrue|[_ [v Hv]]]; congruence.
  - destruct Hc as [(r & Hr & Hraise)|(r & Hr & Hfalse & Hnone & ->)].
    + destruct (Hanswer r Hr) as [found Hfound]. congruence.
    + exists r. split; [done|]. split; [done|]. split; [done|]. intros f.
      unfold myFeature.call. by rewrite Hcheck.
Qed.

(** X2.  The contract of the wrapper, for any call and whatever the
    decorated function returns.  A call that returns has run the
    decorated function and returns what it returned as it is; every
    required name was equal to a positional value or a key of the keyword
    arguments, and every provided name is in what was returned.  A call
    that raises raises one of five things: the exception of a comparison
    of a required name with a positional value, MissingRequiredParameterError
    for a required name that was passed in neither way, the exception of
    the function itself, the exception of the test of a provided name on
    what the function returned (a TypeError when that is no container), or
    MissingRequiredReturnKeyError for a provided name that is not in it. *)
Theorem guard_contract (self : myFeature.t)
    (f : list A → gmap string V → result R) (args : list A)
    (kwargs : gmap string V) :
  match myFeature.call eq_name contains self f args kwargs with
  | Return result_dict =>
      f args kwargs = Return result_dict ∧
      (∀ q, q ∈ myFeature.requires self →
         myFeature.in_tuple eq_name q args = Return true ∨
         (myFeature.in_tuple eq_name q args = Return false ∧
          is_Some (kwargs !! q))) ∧
      (∀ p, p ∈ myFeature.provides self → contains p result_dict = Return true)
  | Raise e =>
      (∃ q, q ∈ myFeature.requires self ∧
            myFeature.in_tuple eq_name q args = Raise e) ∨
      (∃ q, q ∈ myFeature.requires self ∧
            myFeature.in_tuple eq_name q args = Return false ∧
            kwargs !! q = None ∧
            e = MissingRequiredParameterError (missing_arg_message q)) ∨
      (f args kwargs = Raise e ∧
       ∀ q, q ∈ myFeature.requires self →
         myFeature.in_tuple eq_name q args = Return true ∨
         (myFeature.in_tuple eq_name q args = Return false ∧
          is_Some (kwargs !! q))) ∨
      (∃ result_dict p,
          f args kwargs = Return result_dict ∧ p ∈ myFeature.provides self ∧
          contains p result_dict = Raise e) ∨
      (∃ result_dict p,
          f args kwargs = Return result_dict ∧ p ∈ myFeature.provides self ∧
          contains p result_dict = Return false ∧
          e = MissingRequiredReturnKeyError (missing_key_message p))
  end.
Proof.
  unfold myFeature.call.
  pose proof (check_required_outcome (myFeature.requires self) args kwargs) as Hc.
  destruct (myFeature.check_required eq_name (myFeature.requires self) args kwargs)
    as [[]|e].
  2:{ destruct Hc as [Hc|Hc]; [by left|right; by left]. }
  destruct (f args kwargs) as [result_dict|e] eqn:Hf.
  2:{ right. right. by left. }
  pose proof (check_provided_outcome (myFeature.provides self) result_dict) as Hp.
  destruct (myFeature.check_provided contains (myFeature.provides self) result_dict)
    as [[]|e].
  - done.
  - right. right. right.
    destruct Hp as [(p & Hin & Hr)|(p & Hin & Hr & ->)];
      [left|right]; by exists result_dict, p.
Qed.
End call_properties.

(** The wrapper as the scheduler calls it: without positional values, on
    a function that returns a dictionary. *)
Lemma call_keywords_only {V : Type}
    (eq_name : string → Empty_set → result bool)
    (self : myFeature.t) (f : myFeature.callable V) (kwargs : gmap string V) :
  myFeature.call eq_name
    (λ x (result_dict : gmap string V),
       Return (bool_decide (is_Some (result_dict !! x))))
    self (λ _, f) [] kwargs =
  myFeature.wrapped_f self f kwargs.
Proof.
  assert (Hreq : ∀ names,
    myFeature.check_required (V := V) eq_name names [] kwargs =
    match first_absent names kwargs with
    | Some n => Raise (MissingRequiredParameterError (missing_arg_message n))
    | None => Return ()
    end).
  { induction names as [|n names IH]; simpl; [done|].
    by destruct (kwargs !! n). }
  assert (Hprov : ∀ names (r : gmap string V),
    myFeature.check_provided
      (λ x (result_dict : gmap string V),
         Return (bool_decide (is_Some (result_dict !! x)))) names r =
    match first_absent names r with
    | Some n => Raise (MissingRequiredReturnKeyError (missing_key_message n))
    | None => Return ()
    end).
  { induction names as [|n names IH]; intros r; simpl; [done|].
    destruct (r !! n) as [v|] eqn:Hn.
    - rewrite bool_decide_eq_true_2 by eauto. apply IH.
    - rewrite bool_decide_eq_false_2; [done|]. by intros [v Hv]. }
  unfold myFeature.call, myFeature.wrapped_f. rewrite Hreq.
  destruct (first_absent (myFeature.requires self) kwargs); [done|].
  destruct (f kwargs) as [r|e]; [|done]. rewrite Hprov.
  by destruct (first_absent (myFeature.provides self) r).
Qed.

(** The name t is passed as a positional value, so it is not missed; m is
    passed in neither way. *)
Lemma guard_missing_parameter_witness :
  ∃ r, r ∈ ["t"; "m"] ∧
       myFeature.in_tuple (λ x a, Return (bool_decide (a = x))) r ["t"] =
         Return false ∧
       (∅ : gmap string nat) !! r = None ∧
       ∀ f : list string → gmap string nat → result (gmap string nat),
         myFeature.call (λ x a, Return (bool_decide (a = x)))
           (λ x result_dict, Return (bool_decide (is_Some (result_dict !! x))))
           (myFeature.init ["t"; "m"] ["avg"]) f ["t"] ∅ =
           Raise (MissingRequiredParameterError (missing_arg_message r)).
Proof.
  apply (guard_missing_parameter (λ x a, Return (bool_decide (a = x)))
           (λ x (result_dict : gmap string nat),
              Return (bool_decide (is_Some (result_dict !! x))))
           (myFeature.init ["t"; "m"] ["avg"]) ["t"] ∅).
  - intros q Hq. simpl. destruct (bool_decide ("t" = q)); eauto.
  - exists "m". split; [apply list_elem_of_In; simpl; tauto|].
    split; reflexivity.
Defined.

(** X3.  Decorating twice with the same decorator changes nothing: the
    guard laid over a guarded function answers every call as the guarded
    function does. *)
Theorem guard_twice {V : Type} (self : myFeature.t) (f : myFeature.callable V)
    (kwargs : gmap string V) :
  myFeature.wrapped_f self (myFeature.wrapped_f self f) kwargs =
  myFeature.wrapped_f self f kwargs.
Proof.
  unfold myFeature.wrapped_f.
  destruct (first_absent (myFeature.requires self) kwargs) as [q|]; [done|].
  destruct (f kwargs) as [result_dict|e]; [|done].
  by destruct (first_absent (myFeature.provides self) result_dict) as [p|] eqn:Hp;
    [|rewrite Hp].
Qed.

(** ** The arguments of a call *)

(** X4.  The keyword arguments assembled for a unit hold names of its
    requires list only; a required name the caller knows comes with the
    caller's value, one the caller does not know comes with the extracted
    value, and one that is in neither mapping is left out.  Repeating a
    name in the requires list, or reordering the list, changes nothing. *)
Theorem arguments_assembled {V : Type} (features_already_known : gmap string V)
    (reqs : list string) (extracted : gmap string V) :
  (∀ k, is_Some (build_arguments features_already_known reqs extracted !! k) →
        k ∈ reqs) ∧
  (∀ k v, k ∈ reqs → features_already_known !! k = Some v →
        build_arguments features_already_known reqs extracted !! k = Some v) ∧
  (∀ k, k ∈ reqs → features_already_known !! k = None →
        build_arguments features_already_known reqs extracted !! k =
          extracted !! k) ∧
  (∀ reqs', (∀ k, k ∈ reqs ↔ k ∈ reqs') →
        build_arguments features_already_known reqs' extracted =
        build_arguments features_already_known reqs extracted).
Proof.
  split; [|split; [|split]].
  - intros k. rewrite build_arguments_lookup.
    destruct (decide (k ∈ reqs)); [done|]. by intros [? ?].
  - intros k v Hk Hv. rewrite build_arguments_lookup, decide_True by done.
    unfold known_value. by rewrite Hv.
  - intros k Hk Hv. rewrite build_arguments_lookup, decide_True by done.
    unfold known_value. by rewrite Hv.
  - intros reqs' Hsame. apply map_eq. intros k.
    rewrite !build_arguments_lookup.
    destruct (decide (k ∈ reqs)) as [Hin|Hout].
    + rewrite decide_True; [done|]. by apply Hsame.
    + rewrite decide_False; [done|]. by rewrite <- Hsame.
Qed.

(** ** Validation through [execute_functions_in_order] *)

Lemma check_all_provided_self {V : Type} (features_already_known : gmap string V)
    (all_required_params : list string) :
  check_all_provided all_required_params
    (initial_required_copy features_already_known all_required_params) = Return ().
Proof.
  rewrite check_all_provided_spec.
  replace (filter (λ x, x ∉ all_required_params)
             (initial_required_copy features_already_known all_required_params))
    with (@nil string); [done|].
  symmetry. apply elem_of_nil_inv. intros x Hx.
  apply list_elem_of_filter in Hx as [Hout Hx].
  unfold initial_required_copy in Hx.
  apply list_elem_of_filter in Hx as [_ Hx]. by apply Hout.
Qed.

(** X5.  Through [execute_functions_in_order] no script is ever refused
    for an unresolved name: the required names are checked against
    themselves, so for every script that the extraction accepts the call
    goes straight to the scheduling loop, whatever the script provides
    and whatever the caller knows. *)
Theorem execute_functions_in_order_never_validates {W V : Type}
    (py_eval : string → eff W (list string))
    (custom_feature_defs : string → option (myFeature.t * myFeature.callable V))
    (script_text : string) (features_already_known : gmap string V)
    (fuel : nat) (w : W) :
  execute_functions_in_order py_eval custom_feature_defs script_text
    features_already_known fuel w =
  match parse_for_req_prov_params py_eval script_text w with
  | (Raise e, w') => (Raises e, w')
  | (Return (fnames_req_prov_dict, all_required_params, _), w') =>
      (match while_funcnames custom_feature_defs features_already_known
               fnames_req_prov_dict fuel
               (initial_state features_already_known all_required_params
                  fnames_req_prov_dict) with
       | Returns st => Returns (all_extracted_features st)
       | Raises e => Raises e
       | OutOfFuel => OutOfFuel
       end, w')
  end.
Proof.
  unfold execute_functions_in_order.
  destruct (parse_for_req_prov_params py_eval script_text w)
    as [[[[table req] prov]|e] w']; [|done].
  unfold call_custom_functions. by rewrite check_all_provided_self.
Qed.

(** ** What a round keeps and what it changes *)

Lemma py_remove_sublist x l l' : py_remove x l = Some l' → l' `sublist_of` l.
Proof.
  revert l'. induction l as [|y l IH]; intros l'; simpl; [done|].
  destruct (decide (y = x)) as [->|Hne].
  - intros [= <-]. by apply sublist_cons.
  - destruct (py_remove x l) as [l0|]; simpl; [|done].
    intros [= <-]. apply sublist_skip. by apply IH.
Qed.

Lemma py_remove_middle x (pre rest : list string) :
  x ∉ pre → py_remove x (pre ++ x :: rest) = Some (pre ++ rest).
Proof.
  intros Hout. induction pre as [|y pre IH]; simpl.
  - by rewrite decide_True.
  - rewrite decide_False.
    2:{ intros ->. apply Hout. by left. }
    rewrite IH; [done|]. intros ?. apply Hout. by right.
Qed.

Section round_properties.
Context {V : Type}.
Context (custom_feature_defs : string → option (myFeature.t * myFeature.callable V)).
Context (features_already_known : gmap string V).
Context (all_required_params : list string).
Context (fnames_req_prov_dict : decl_table).

Abbreviation visit'' :=
  (visit custom_feature_defs features_already_known fnames_req_prov_dict).
Abbreviation for_funcnames'' :=
  (for_funcnames custom_feature_defs features_already_known fnames_req_prov_dict).
Abbreviation round'' :=
  (round custom_feature_defs features_already_known fnames_req_prov_dict).
Abbreviation while_funcnames'' :=
  (while_funcnames custom_feature_defs features_already_known fnames_req_prov_dict).
Abbreviation scan'' :=
  (scan custom_feature_defs features_already_known fnames_req_prov_dict).

Lemma grows_refl (st : sched_state V) : grows st st.
Proof. by repeat split. Qed.

Lemma grows_trans (st1 st2 st3 : sched_state V) :
  grows st1 st2 → grows st2 st3 → grows st1 st3.
Proof.
  intros (H1 & H2 & H3 & H4) (H1' & H2' & H3' & H4'). repeat split.
  - by etrans.
  - by etrans.
  - by etrans.
  - by etrans.
Qed.

Lemma visit_grows (st st' : sched_state V) funcname res :
  visit'' funcname st = (res, st') → grows st st'.
Proof.
  unfold visit. destruct (dict_getitem _ _) as [decl|];
    [|intros [= _ <-]; apply grows_refl].
  destruct (blocked _ _).
  { intros [= _ <-]. repeat split; simpl; try done. by apply prefix_app_r. }
  assert (Hfilter : filter (λ x, x ∉ provides decl) (all_required_params_copy st)
                      `sublist_of` all_required_params_copy st)
    by apply sublist_filter.
  destruct (custom_feature_defs funcname) as [[self f]|];
    [|intros [= _ <-]; by repeat split].
  destruct (myFeature.wrapped_f self f _) as [func_result|e];
    [|intros [= _ <-]; by repeat split].
  simpl.
  assert (Hdom : dom (all_extracted_features st) ⊆
                 dom (py_dict (map_to_list (all_extracted_features st) ++
                               map_to_list func_result))).
  { rewrite py_dict_items, dom_union_L. set_solver. }
  destruct (py_remove funcname (funcnames st)) as [remaining|] eqn:Hrm;
    intros [= _ <-]; repeat split; simpl; try done.
  by apply py_remove_sublist in Hrm.
Qed.

Lemma for_funcnames_grows (fuel : nat) : ∀ idx (st st' : sched_state V) res,
  for_funcnames'' fuel idx st = (res, st') → grows st st'.
Proof.
  induction fuel as [|fuel IH]; intros idx st st' res; simpl.
  { intros [= _ <-]. apply grows_refl. }
  destruct (funcnames st !! idx) as [funcname|];
    [|intros [= _ <-]; apply grows_refl].
  destruct (visit'' funcname st) as [[[]|e] st1] eqn:Hv.
  - intros Hfor. apply (grows_trans _ st1); [by apply visit_grows in Hv|].
    by apply IH in Hfor.
  - intros [= _ <-]. by apply visit_grows in Hv.
Qed.

Lemma round_grows (st st' : sched_state V) res :
  round'' st = (res, st') → grows st st'.
Proof.
  unfold round.
  destruct (for_funcnames'' _ 0 (open_round st)) as [[[]|e] st1] eqn:Hfor;
    intros [= _ <-]; apply for_funcnames_grows in Hfor; exact Hfor.
Qed.

(** X6.  Whatever a round does, and also when it is left by an exception:
    every name extracted before it is still extracted after it, the
    pending list after it is the list before it with some units taken
    out, in the same order, and so is the list of outstanding names.
    The same holds from any state of the loop to the state it returns in,
    where moreover no unit is pending. *)
Theorem round_never_loses (st st' : sched_state V) (res : result unit) (fuel : nat)
    (final : sched_state V) :
  (round'' st = (res, st') →
     dom (all_extracted_features st) ⊆ dom (all_extracted_features st') ∧
     funcnames st' `sublist_of` funcnames st ∧
     all_required_params_copy st' `sublist_of` all_required_params_copy st) ∧
  (while_funcnames'' fuel st = Returns final →
     dom (all_extracted_features st) ⊆ dom (all_extracted_features final) ∧
     funcnames final = [] ∧
     all_required_params_copy final `sublist_of` all_required_params_copy st).
Proof.
  split.
  - intros Hr. apply round_grows in Hr as (? & ? & ? & _). done.
  - revert st. induction fuel as [|fuel IH]; intros st; simpl; [done|].
    case_bool_decide as Hlen.
    + destruct (round'' st) as [[[]|e] st1] eqn:Hr; [|done].
      intros Hw. apply round_grows in Hr as (H1 & _ & H3 & _).
      destruct (IH st1 Hw) as (H1' & H2' & H3').
      split; [by etrans|]. split; [done|]. by etrans.
    + intros [= <-]. split; [done|]. split; [|done].
      destruct (funcnames st); [done|simpl in Hlen; lia].
Qed.

Lemma for_funcnames_scan (fuel : nat) : ∀ (pre rest : list string) (st : sched_state V),
  funcnames st = pre ++ rest → NoDup (funcnames st) → length rest ≤ fuel →
  for_funcnames'' fuel (length pre) st = scan'' rest st.
Proof.
  induction fuel as [|fuel IH]; intros pre rest st Hsplit Hnd Hlen.
  { destruct rest; [done|simpl in Hlen; lia]. }
  destruct rest as [|u rest]; simpl.
  { rewrite Hsplit, app_nil_r, lookup_ge_None_2; [done|lia]. }
  rewrite Hsplit, list_lookup_middle by done.
  assert (Hu : (u ∉ pre) ∧ (u ∉ rest)).
  { rewrite Hsplit in Hnd. apply NoDup_app in Hnd as (_ & Hdis & Hr).
    apply NoDup_cons in Hr as [? _]. split; [|done].
    intros Hin. apply (Hdis u Hin). by left. }
  destruct Hu as [Hpre Hrest].
  destruct (visit'' u st) as [[[]|e] st1] eqn:Hv; [|done].
  assert (Hcases : funcnames st1 = funcnames st ∨
                   py_remove u (funcnames st) = Some (funcnames st1)).
  { revert Hv. unfold visit. destruct (dict_getitem _ _) as [decl|]; [|done].
    destruct (blocked _ _); [intros [= <-]; by left|].
    destruct (custom_feature_defs u) as [[self f]|]; [|done].
    destruct (myFeature.wrapped_f self f _); [|done]. simpl.
    destruct (py_remove u (funcnames st)); [|done].
    intros [= <-]. by right. }
  destruct Hcases as [Hsame|Hrm].
  - rewrite decide_True.
    2:{ rewrite Hsame, Hsplit. apply elem_of_app. right. by left. }
    replace (S (length pre)) with (length (pre ++ [u]))
      by (rewrite length_app; simpl; lia).
    apply IH.
    + by rewrite Hsame, Hsplit, <- app_assoc.
    + by rewrite Hsame.
    + simpl in Hlen. lia.
  - rewrite Hsplit, py_remove_middle in Hrm by done. injection Hrm as Hst1.
    rewrite decide_False.
    2:{ rewrite <- Hst1. intros [?|?]%elem_of_app; done. }
    destruct rest as [|v rest].
    + destruct fuel; simpl; [done|].
      rewrite <- Hst1, app_nil_r, lookup_ge_None_2; [done|lia].
    + replace (S (length pre)) with (length (pre ++ [v]))
        by (rewrite length_app; simpl; lia).
      apply IH.
      * by rewrite <- Hst1, <- app_assoc.
      * rewrite <- Hst1. rewrite Hsplit in Hnd.
        apply NoDup_app in Hnd as (Hp & Hdis & Hr).
        apply NoDup_cons in Hr as [_ Hr]. apply NoDup_app. split; [done|].
        split; [|done]. intros x Hx Hin. apply (Hdis x Hx). by right.
      * simpl in Hlen. simpl. lia.
Qed.

(** X7.  The [for] loop over the list it shortens, told along the list
    the round starts from: when the pending names are distinct, a round
    visits the first unit, and after a unit that was only queued it visits
    the next one, while after a unit that was run it passes over the next
    one, which stays pending for a later round. *)
Theorem round_passes_over_next (st : sched_state V) :
  NoDup (funcnames st) →
  for_funcnames'' (length (funcnames st)) 0 st = scan'' (funcnames st) st.
Proof.
  intros Hnd. by apply (for_funcnames_scan _ [] (funcnames st) st).
Qed.
End round_properties.

(** In the first round of [same_round_table] the loop visits A, passes
    over C and visits B. *)
Lemma round_passes_over_next_witness :
  for_funcnames same_round_defs {["t" := 1]} same_round_table 3 0
    (open_round (initial_state {["t" := 1]} ["t"; "x"; "y"] same_round_table)) =
  scan same_round_defs {["t" := 1]} same_round_table ["A"; "C"; "B"]
    (open_round (initial_state {["t" := 1]} ["t"; "x"; "y"] same_round_table)).
Proof.
  apply (round_passes_over_next same_round_defs {["t" := 1]} same_round_table
           (open_round (initial_state {["t" := 1]} ["t"; "x"; "y"] same_round_table))).
  apply (bool_decide_unpack _). vm_compute. exact I.
Defined.

(** ** What a whole run does *)

Lemma dict_getitem_keys (d : decl_table) k v :
  dict_getitem d k = Some v → k ∈ dict_keys d.
Proof.
  unfold dict_keys. induction d as [|[k' v'] d IH]; simpl; [done|].
  destruct (decide (k' = k)) as [->|Hne]; [intros _; by left|].
  intros H. right. by apply IH.
Qed.

Section run_properties.
Context {V : Type}.
Context (custom_feature_defs : string → option (myFeature.t * myFeature.callable V)).
Context (features_already_known : gmap string V).
Context (all_required_params : list string).
Context (fnames_req_prov_dict : decl_table).

Abbreviation visit_ :=
  (visit custom_feature_defs features_already_known fnames_req_prov_dict).
Abbreviation visiting_ :=
  (visiting custom_feature_defs features_already_known all_required_params
     fnames_req_prov_dict).
Abbreviation sched_inv_ :=
  (sched_inv features_already_known all_required_params fnames_req_prov_dict).
Abbreviation between_ :=
  (between_rounds fnames_req_prov_dict custom_feature_defs features_already_known
     all_required_params).
Abbreviation initial_ :=
  (initial_state features_already_known all_required_params fnames_req_prov_dict).
Abbreviation accounted_ := (units_accounted fnames_req_prov_dict).
Abbreviation extracted_ := (outputs_extracted fnames_req_prov_dict).

(** What a visit that returns has done. *)
Lemma visit_returned (st st' : sched_state V) funcname :
  sched_inv_ st → funcname ∈ funcnames st →
  visit_ funcname st = (Return (), st') →
  (funcnames st' = funcnames st ∧ func_rounds st' = func_rounds st ∧
   all_extracted_features st' = all_extracted_features st) ∨
  (∃ decl self f func_result,
     dict_getitem fnames_req_prov_dict funcname = Some decl ∧
     (∀ n u, ran_in st' n u ↔ ran_in st n u ∨ (n = i st ∧ u = funcname)) ∧
     func_rounds st' = alter (λ l, l ++ [funcname]) (i st) (func_rounds st) ∧
     (funcname ∉ funcnames st') ∧
     (∀ u, u ∈ funcnames st → u = funcname ∨ u ∈ funcnames st') ∧
     (∀ u, u ∈ funcnames st' → u ∈ funcnames st) ∧
     custom_feature_defs funcname = Some (self, f) ∧
     myFeature.wrapped_f self f
       (build_arguments features_already_known (requires decl)
          (all_extracted_features st)) = Return func_result ∧
     all_extracted_features st' = func_result ∪ all_extracted_features st).
Proof.
  intros Hinv Hpend Hv.
  destruct (dict_getitem fnames_req_prov_dict funcname) as [decl|] eqn:Hd.
  2:{ unfold visit in Hv. by rewrite Hd in Hv. }
  destruct (blocked (all_required_params_copy st) (requires decl)) eqn:Hb.
  { rewrite (visit_blocked _ _ _ _ _ _ Hd Hb) in Hv. injection Hv as <-. by left. }
  right.
  destruct (visit_runnable custom_feature_defs features_already_known
              fnames_req_prov_dict st funcname decl Hd Hb)
    as (res & st1 & Hv1 & _ & Hrounds & Hi & Hret).
  rewrite Hv in Hv1. injection Hv1 as <- <-.
  destruct (Hret eq_refl) as (Hrm & self & f & func_result & Hdef & Hw & Hext).
  destruct Hinv as [_ _ Hnd _ Ho _].
  destruct (py_remove_Some _ _ _ Hrm) as (_ & Hsub & Hrest).
  destruct (Hrest Hnd) as (Hgone & _ & Hcov).
  exists decl, self, f, func_result. split; [done|]. split.
  { intros n u. by apply ran_in_alter. }
  repeat split; done.
Qed.

Lemma units_accounted_visiting (st : sched_state V) :
  NoDup (dict_keys fnames_req_prov_dict) → visiting_ st → accounted_ st.
Proof.
  intros Hkeys Hvis.
  induction Hvis as [|st funcname st' Hvis IH Hpend Hv|st Hvis IH].
  - assert (Hran : ∀ n u, ¬ ran_in (open_round initial_) n u).
    { intros n u (l & Hl & Hin). simpl in Hl.
      destruct (decide (n = 0)) as [->|Hne].
      - rewrite lookup_insert_eq in Hl. injection Hl as <-.
        by apply elem_of_nil in Hin.
      - rewrite lookup_insert_ne, lookup_empty in Hl by done. done. }
    repeat split.
    + intros u Hu. by left.
    + done.
    + intros n u Hr. by destruct (Hran n u).
    + intros n l. simpl. destruct (decide (n = 0)) as [->|Hne].
      * rewrite lookup_insert_eq. intros [= <-]. apply NoDup_nil_2.
      * by rewrite lookup_insert_ne, lookup_empty.
    + intros n n' u Hr. by destruct (Hran n u).
  - pose proof (visiting_inv _ _ _ _ st Hkeys Hvis) as Hinv.
    destruct IH as (Hcov & Hpd & Hrd & Hndl & Honce).
    destruct (visit_returned st st' funcname Hinv Hpend Hv)
      as [(Hf & Hr & _)|(decl & self & f & fr & Hd & Hran & Hrounds & Hgone
                          & Hleft & Hsub & _)].
    { unfold units_accounted, ran_in. rewrite Hf, Hr. done. }
    destruct Hinv as [_ _ Hnd Hrp Ho _].
    repeat split.
    + intros u Hu. destruct (Hcov u Hu) as [Hp|[n Hn]].
      * destruct (Hleft u Hp) as [->|?]; [right|by left].
        exists (i st). apply Hran. by right.
      * right. exists n. apply Hran. by left.
    + intros u Hu. by apply Hpd, Hsub.
    + intros n u [Hr|[-> ->]]%Hran; [by apply (Hrd n)|by apply Hpd].
    + intros n l. rewrite Hrounds. destruct (decide (i st = n)) as [<-|Hne].
      * rewrite lookup_alter_eq. destruct (func_rounds st !! i st) as [l0|] eqn:Hl0;
          [|done]. simpl. intros [= <-]. apply NoDup_app.
        split; [by apply (Hndl (i st))|]. split; [|apply NoDup_singleton].
        intros x Hx ->%list_elem_of_singleton.
        apply (Hrp (i st) funcname); [|done]. by exists l0.
      * rewrite lookup_alter_ne by done. apply Hndl.
    + intros n n' u Hr Hr'. apply Hran in Hr. apply Hran in Hr'.
      destruct Hr as [Hr|[Hn Hu]], Hr' as [Hr'|[Hn' Hu']].
      * by apply (Honce n n' u).
      * subst. by destruct (Hrp n funcname Hr).
      * subst. by destruct (Hrp n' funcname Hr').
      * congruence.
  - pose proof (visiting_inv _ _ _ _ st Hkeys Hvis) as [_ _ _ _ _ Hpast].
    destruct IH as (Hcov & Hpd & Hrd & Hndl & Honce).
    assert (Hran : ∀ n u, ran_in (open_round (next_round st)) n u ↔ ran_in st n u)
      by (intros; by apply ran_in_open_round).
    repeat split.
    + intros u Hu. destruct (Hcov u Hu) as [?|[n Hn]]; [by left|right].
      exists n. by apply Hran.
    + done.
    + intros n u Hr%Hran. by apply (Hrd n).
    + intros n l. simpl. destruct (decide (S (i st) = n)) as [<-|Hne].
      * rewrite lookup_insert_eq. intros [= <-]. apply NoDup_nil_2.
      * rewrite lookup_insert_ne by done. apply Hndl.
    + intros n n' u Hr%Hran Hr'%Hran. by apply (Honce n n' u).
Qed.

Lemma outputs_extracted_visiting (st : sched_state V) :
  NoDup (dict_keys fnames_req_prov_dict) →
  decorators_agree custom_feature_defs fnames_req_prov_dict →
  visiting_ st → extracted_ st.
Proof.
  intros Hkeys Hagree Hvis.
  induction Hvis as [|st funcname st' Hvis IH Hpend Hv|st Hvis IH].
  - intros n u decl x (l & Hl & Hin). simpl in Hl.
    destruct (decide (n = 0)) as [->|Hne].
    + rewrite lookup_insert_eq in Hl. injection Hl as <-.
      by apply elem_of_nil in Hin.
    + rewrite lookup_insert_ne, lookup_empty in Hl by done. done.
  - pose proof (visiting_inv _ _ _ _ st Hkeys Hvis) as Hinv.
    destruct (visit_returned st st' funcname Hinv Hpend Hv)
      as [(_ & Hr & He)|(decl & self & f & fr & Hd & Hran & _ & _ & _ & _
                          & Hdef & Hw & Hext)].
    { unfold outputs_extracted, ran_in. rewrite Hr, He. apply IH. }
    intros n u d x Hru Hdu Hx. rewrite Hext, lookup_union_is_Some.
    apply Hran in Hru as [Hru|[-> ->]]; [right; by apply (IH n u d)|left].
    rewrite Hd in Hdu. injection Hdu as <-.
    destruct (Hagree funcname decl self f Hd Hdef) as [_ Hprov].
    by apply (wrapped_f_returns _ _ _ _ Hw), Hprov.
  - pose proof (visiting_inv _ _ _ _ st Hkeys Hvis) as [_ _ _ _ _ Hpast].
    intros n u d x Hru. apply (ran_in_open_round _ _ _ Hpast) in Hru.
    by apply (IH n u d x).
Qed.

Lemma while_funcnames_between (fuel : nat) : ∀ st final : sched_state V,
  between_ st →
  while_funcnames custom_feature_defs features_already_known
    fnames_req_prov_dict fuel st = Returns final →
  between_ final ∧ funcnames final = [].
Proof.
  induction fuel as [|fuel IH]; intros st final Hbetween; simpl; [done|].
  case_bool_decide as Hlen.
  - destruct (round _ _ _ st) as [[[]|e] st1] eqn:Hr; [|done].
    destruct (round_visiting _ _ _ _ st st1 Hbetween Hr) as [_ Hnext].
    apply IH. by right.
  - intros [= <-]. split; [done|].
    destruct (funcnames st); [done|simpl in Hlen; lia].
Qed.

Lemma between_accounted (st : sched_state V) :
  NoDup (dict_keys fnames_req_prov_dict) → between_ st → accounted_ st.
Proof.
  intros Hkeys [->|(v & Hv & ->)].
  - assert (Hran : ∀ n u, ¬ ran_in initial_ n u).
    { intros n u (l & Hl & _). simpl in Hl. by rewrite lookup_empty in Hl. }
    repeat split.
    + intros u Hu. by left.
    + done.
    + intros n u Hr. by destruct (Hran n u).
    + intros n l. simpl. by rewrite lookup_empty.
    + intros n n' u Hr. by destruct (Hran n u).
  - by apply (units_accounted_visiting v).
Qed.

(** X8.  In a run that returns, every declared function has been called
    in exactly one round and is listed once there, and only declared
    functions are listed; no unit is left pending. *)
Theorem every_unit_runs_once (fuel : nat) (final : sched_state V) :
  NoDup (dict_keys fnames_req_prov_dict) →
  while_funcnames custom_feature_defs features_already_known
    fnames_req_prov_dict fuel initial_ = Returns final →
  funcnames final = [] ∧
  (∀ u, u ∈ dict_keys fnames_req_prov_dict →
        ∃ n, ran_in final n u ∧ ∀ n', ran_in final n' u → n' = n) ∧
  (∀ n l, func_rounds final !! n = Some l →
        NoDup l ∧ ∀ u, u ∈ l → u ∈ dict_keys fnames_req_prov_dict).
Proof.
  intros Hkeys Hw.
  destruct (while_funcnames_between fuel initial_ final) as [Hb Hnil];
    [by left|done|].
  destruct (between_accounted final Hkeys Hb) as (Hcov & _ & Hrd & Hndl & Honce).
  split; [done|]. split.
  - intros u Hu. destruct (Hcov u Hu) as [Hp|[n Hn]].
    { rewrite Hnil in Hp. by apply elem_of_nil in Hp. }
    exists n. split; [done|]. intros n' Hn'. by apply (Honce n' n u).
  - intros n l Hl. split; [by apply (Hndl n)|].
    intros u Hu. apply (Hrd n). by exists l.
Qed.

Lemma final_state_has_provided (fuel : nat) (final : sched_state V) :
  NoDup (dict_keys fnames_req_prov_dict) →
  decorators_agree custom_feature_defs fnames_req_prov_dict →
  while_funcnames custom_feature_defs features_already_known
    fnames_req_prov_dict fuel initial_ = Returns final →
  ∀ u decl x,
    dict_getitem fnames_req_prov_dict u = Some decl → x ∈ provides decl →
    is_Some (all_extracted_features final !! x).
Proof.
  intros Hkeys Hagree Hw u decl x Hd Hx.
  destruct (while_funcnames_between fuel initial_ final) as [Hb Hnil];
    [by left|done|].
  destruct (between_accounted final Hkeys Hb) as (Hcov & _).
  destruct (Hcov u (dict_getitem_keys _ _ _ Hd)) as [Hp|[n Hn]].
  { rewrite Hnil in Hp. by apply elem_of_nil in Hp. }
  destruct Hb as [->|(v & Hv & ->)].
  - destruct Hn as (l & Hl & _). simpl in Hl. by rewrite lookup_empty in Hl.
  - by apply (outputs_extracted_visiting v Hkeys Hagree Hv n u decl x).
Qed.

(** X9.  A call that returns has a value for every name that the table
    declares as provided, whenever the decorators in the script promise
    what the table says. *)
Theorem successful_call_returns_provided (all_provided_params : list string)
    (fuel : nat) (returned : gmap string V) :
  NoDup (dict_keys fnames_req_prov_dict) →
  decorators_agree custom_feature_defs fnames_req_prov_dict →
  call_custom_functions custom_feature_defs features_already_known
    all_required_params all_provided_params fnames_req_prov_dict fuel =
    Returns returned →
  ∀ u decl x,
    dict_getitem fnames_req_prov_dict u = Some decl → x ∈ provides decl →
    is_Some (returned !! x).
Proof.
  intros Hkeys Hagree Hcall. unfold call_custom_functions in Hcall.
  destruct (check_all_provided _ _); [|done].
  destruct (while_funcnames _ _ _ fuel initial_) as [final| |] eqn:Hw; [|done..].
  injection Hcall as <-.
  by apply (final_state_has_provided fuel final).
Qed.

(** X10.  The scheduler never calls a unit without one of its required
    arguments.  When the decorators agree with the table and the required
    names of the unit are listed in [all_required_params], a unit found
    runnable is called with every name its decorator requires, so the
    call can only raise what the function itself raises or
    MissingRequiredReturnKeyError. *)
Theorem scheduled_call_has_its_arguments
    (st : sched_state V) (funcname : string) (decl : reqs_provs)
    (self : myFeature.t) (f : myFeature.callable V) :
  NoDup (dict_keys fnames_req_prov_dict) →
  decorators_agree custom_feature_defs fnames_req_prov_dict →
  visiting_ st → funcname ∈ funcnames st →
  dict_getitem fnames_req_prov_dict funcname = Some decl →
  (∀ r, r ∈ requires decl → r ∈ all_required_params) →
  blocked (all_required_params_copy st) (requires decl) = false →
  custom_feature_defs funcname = Some (self, f) →
  let arguments :=
    build_arguments features_already_known (requires decl)
      (all_extracted_features st) in
  (∀ q, q ∈ myFeature.requires self → is_Some (arguments !! q)) ∧
  (∀ e, myFeature.wrapped_f self f arguments = Raise e →
        f arguments = Raise e ∨
        ∃ p, e = MissingRequiredReturnKeyError (missing_key_message p)).
Proof.
  intros Hkeys Hagree Hvis Hpend Hd Hlisted Hb Hdef arguments.
  pose proof (visiting_inv _ _ _ _ st Hkeys Hvis) as [_ Hc _ _ _ _].
  pose proof (outputs_extracted_visiting st Hkeys Hagree Hvis) as Hout.
  destruct (Hagree funcname decl self f Hd Hdef) as [Hreq _].
  assert (Hargs : ∀ q, q ∈ myFeature.requires self → is_Some (arguments !! q)).
  { intros q Hq%Hreq. unfold arguments.
    rewrite build_arguments_lookup, decide_True by done. unfold known_value.
    destruct (features_already_known !! q) as [v|] eqn:Hk; [eauto|].
    destruct (Hc q (Hlisted q Hq) Hk) as [Hin|(n & u & d & Hr & Hdu & Hx)].
    - by destruct (proj1 (blocked_false _ _) Hb q Hq).
    - by apply (Hout n u d q). }
  split; [done|]. intros e. unfold myFeature.wrapped_f.
  rewrite (proj2 (first_absent_None _ _) Hargs).
  destruct (f arguments) as [r|e']; [|intros [= <-]; by left].
  destruct (first_absent (myFeature.provides self) r) as [p|]; [|done].
  intros [= <-]. right. by exists p.
Qed.
End run_properties.

Lemma chain_decorators_agree : decorators_agree chain_defs chain_table.
Proof.
  intros funcname decl self f Hd Hdef. unfold chain_table in Hd. simpl in Hd.
  repeat case_decide; simplify_eq; vm_compute in Hdef; simplify_eq; done.
Qed.

Lemma every_unit_runs_once_witness :
  ∃ final,
    while_funcnames chain_defs {["t" := 1]} chain_table 5
      (initial_state {["t" := 1]} ["t"; "x"] chain_table) = Returns final ∧
    funcnames final = [] ∧
    (∀ u, u ∈ dict_keys chain_table →
          ∃ n, ran_in final n u ∧ ∀ n', ran_in final n' u → n' = n) ∧
    (∀ n l, func_rounds final !! n = Some l →
          NoDup l ∧ ∀ u, u ∈ l → u ∈ dict_keys chain_table).
Proof.
  eexists. split; [vm_compute; reflexivity|].
  apply (every_unit_runs_once chain_defs {["t" := 1]} ["t"; "x"] chain_table 5);
    [exact chain_keys_nodup|vm_compute; reflexivity].
Defined.

Lemma successful_call_returns_provided_witness :
  call_custom_functions chain_defs {["t" := 1]} ["t"; "x"] ["x"; "y"]
    chain_table 5 = Returns {["x" := 10; "y" := 20]} ∧
  is_Some (({["x" := 10; "y" := 20]} : gmap string nat) !! "y").
Proof.
  assert (Hcall : call_custom_functions chain_defs {["t" := 1]} ["t"; "x"]
                    ["x"; "y"] chain_table 5 = Returns {["x" := 10; "y" := 20]})
    by (vm_compute; reflexivity).
  split; [exact Hcall|].
  assert (Hy : "y" ∈ ["y"]) by (apply list_elem_of_In; simpl; tauto).
  exact (successful_call_returns_provided chain_defs {["t" := 1]} ["t"; "x"]
           chain_table ["x"; "y"] 5 {["x" := 10; "y" := 20]}
           chain_keys_nodup chain_decorators_agree Hcall
           "B" (ReqsProvs ["x"] ["y"]) "y" eq_refl Hy).
Defined.

Lemma scheduled_call_has_its_arguments_witness :
  (∀ q, q ∈ ["t"] →
     is_Some (build_arguments ({["t" := 1]} : gmap string nat) ["t"] ∅ !! q)) ∧
  (∀ e, myFeature.wrapped_f (myFeature.init ["t"] ["x"]) (konst {["x" := 10]})
          (build_arguments ({["t" := 1]} : gmap string nat) ["t"] ∅) = Raise e →
        konst {["x" := 10]}
          (build_arguments ({["t" := 1]} : gmap string nat) ["t"] ∅) = Raise e ∨
        ∃ p, e = MissingRequiredReturnKeyError (missing_key_message p)).
Proof.
  assert (Hb : blocked (all_required_params_copy
                 (open_round (initial_state ({["t" := 1]} : gmap string nat)
                                ["t"; "x"] chain_table))) ["t"] = false)
    by (vm_compute; reflexivity).
  assert (Hp : "A" ∈ funcnames
                 (open_round (initial_state ({["t" := 1]} : gmap string nat)
                                ["t"; "x"] chain_table)))
    by (apply (bool_decide_unpack _); vm_compute; exact I).
  assert (Hl : ∀ r, r ∈ ["t"] → r ∈ ["t"; "x"]).
  { intros r Hr%list_elem_of_In. apply list_elem_of_In. simpl in *. tauto. }
  exact (scheduled_call_has_its_arguments chain_defs {["t" := 1]} ["t"; "x"]
           chain_table _ "A" (ReqsProvs ["t"] ["x"]) (myFeature.init ["t"] ["x"])
           (konst {["x" := 10]}) chain_keys_nodup chain_decorators_agree
           visiting_first Hp eq_refl Hl Hb eq_refl).
Defined.

(** ** How long a run can take *)

Lemma dict_keys_getitem (d : decl_table) k :
  k ∈ dict_keys d → is_Some (dict_getitem d k).
Proof.
  unfold dict_keys. induction d as [|[k' v'] d IH]; simpl.
  - by intros ?%elem_of_nil.
  - destruct (decide (k' = k)) as [->|Hne]; [by eauto|].
    intros [?|?]%elem_of_cons; [congruence|by apply IH].
Qed.

Section progress_properties.
Context {V : Type}.
Context (custom_feature_defs : string → option (myFeature.t * myFeature.callable V)).
Context (features_already_known : gmap string V).
Context (all_required_params : list string).
Context (fnames_req_prov_dict : decl_table).

Abbreviation visit_p :=
  (visit custom_feature_defs features_already_known fnames_req_prov_dict).
Abbreviation for_funcnames_p :=
  (for_funcnames custom_feature_defs features_already_known fnames_req_prov_dict).
Abbreviation round_p :=
  (round custom_feature_defs features_already_known fnames_req_prov_dict).
Abbreviation while_p :=
  (while_funcnames custom_feature_defs features_already_known fnames_req_prov_dict).

Lemma for_funcnames_pending_length (fuel : nat) : ∀ idx (st st' : sched_state V) res,
  for_funcnames_p fuel idx st = (res, st') →
  length (funcnames st') ≤ length (funcnames st).
Proof.
  induction fuel as [|fuel IH]; intros idx st st' res; simpl.
  { by intros [= _ <-]. }
  destruct (funcnames st !! idx) as [funcname|]; [|by intros [= _ <-]].
  destruct (visit_p funcname st) as [[[]|e] st1] eqn:Hv.
  - intros Hf%IH. apply visit_pending_length in Hv. lia.
  - intros [= _ <-]. by apply visit_pending_length in Hv.
Qed.

(** A walk over the pending units that returns has shortened the list,
    or has found every unit it met blocked and left the outstanding names
    as they were. *)
Lemma for_funcnames_progress (fuel : nat) : ∀ idx (st st' : sched_state V),
  for_funcnames_p fuel idx st = (Return (), st') →
  length (funcnames st') < length (funcnames st) ∨
  (funcnames st' = funcnames st ∧
   all_required_params_copy st' = all_required_params_copy st ∧
   ∀ j u, idx ≤ j < idx + fuel → funcnames st !! j = Some u →
     ∃ decl, dict_getitem fnames_req_prov_dict u = Some decl ∧
             blocked (all_required_params_copy st) (requires decl) = true).
Proof.
  induction fuel as [|fuel IH]; intros idx st st'; simpl.
  { intros [= <-]. right. split; [done|]. split; [done|]. intros j u Hj. lia. }
  destruct (funcnames st !! idx) as [funcname|] eqn:Hidx.
  2:{ intros [= <-]. right. split; [done|]. split; [done|]. intros j u Hj Hu.
      apply lookup_ge_None in Hidx. apply lookup_lt_Some in Hu. lia. }
  destruct (visit_p funcname st) as [[[]|e] st1] eqn:Hv; [|done].
  intros Hf.
  destruct (dict_getitem fnames_req_prov_dict funcname) as [decl|] eqn:Hd.
  2:{ unfold visit in Hv. by rewrite Hd in Hv. }
  destruct (blocked (all_required_params_copy st) (requires decl)) eqn:Hb.
  - rewrite (visit_blocked _ _ _ _ _ _ Hd Hb) in Hv. injection Hv as <-.
    destruct (IH _ _ _ Hf) as [Hlt|(Hn & Hc & Hall)]; [by left|]. right.
    split; [done|]. split; [done|]. intros j u Hj Hu.
    destruct (decide (j = idx)) as [->|Hne].
    + rewrite Hidx in Hu. injection Hu as <-. eauto.
    + apply (Hall j u); [lia|done].
  - destruct (visit_runnable custom_feature_defs features_already_known _ _ _ _ Hd Hb)
      as (res & st1' & Hv' & _ & _ & _ & Hret).
    rewrite Hv in Hv'. injection Hv' as <- <-.
    destruct (Hret eq_refl) as [Hrm _].
    apply py_remove_Some in Hrm as [Hlen _].
    apply for_funcnames_pending_length in Hf. left. lia.
Qed.

(** A round that returns has run a unit, or has left a state in which
    every pending unit is blocked. *)
Lemma round_progress (st st' : sched_state V) :
  round_p st = (Return (), st') →
  length (funcnames st') < length (funcnames st) ∨
  (stalled fnames_req_prov_dict st' ∧ funcnames st' = funcnames st).
Proof.
  unfold round.
  destruct (for_funcnames_p _ 0 (open_round st)) as [[[]|e] st1] eqn:Hf; [|done].
  intros [= <-].
  destruct (for_funcnames_progress _ _ _ _ Hf) as [Hlt|(Hn & Hc & Hall)];
    [by left|]. right. simpl in *. split; [|done].
  intros u Hu. simpl in Hu. rewrite Hn in Hu. simpl. rewrite Hc.
  apply list_elem_of_lookup in Hu as [j Hj].
  apply (Hall j u); [|done]. apply lookup_lt_Some in Hj. lia.
Qed.

Lemma check_all_provided_passes (all_provided_params copy : list string) :
  (∀ r, r ∈ copy → r ∈ all_provided_params) →
  check_all_provided all_provided_params copy = Return ().
Proof.
  induction copy as [|r copy IH]; intros Hall; simpl; [done|].
  rewrite decide_True by (apply Hall; by left).
  apply IH. intros r' Hr'. apply Hall. by right.
Qed.

(** X11.  A table in which every function waits for a name that the
    caller does not give never lets the call return, although the
    validation passes: the loop goes round for ever (no number of rounds
    is enough). *)
Theorem nothing_runnable_never_returns (all_provided_params : list string)
    (fuel : nat) :
  (∀ r, r ∈ all_required_params → features_already_known !! r = None →
        r ∈ all_provided_params) →
  dict_keys fnames_req_prov_dict ≠ [] →
  (∀ u decl, dict_getitem fnames_req_prov_dict u = Some decl →
     ∃ r, r ∈ requires decl ∧ r ∈ all_required_params ∧
          features_already_known !! r = None) →
  call_custom_functions custom_feature_defs features_already_known
    all_required_params all_provided_params fnames_req_prov_dict fuel = OutOfFuel.
Proof.
  intros Hvalid Hne Hwait. unfold call_custom_functions.
  rewrite check_all_provided_passes.
  2:{ intros r [Hk Hr]%list_elem_of_filter. by apply Hvalid. }
  rewrite (stalled_never_returns custom_feature_defs features_already_known
             fnames_req_prov_dict fuel); [done| |done].
  intros u Hu. simpl in Hu.
  destruct (dict_keys_getitem _ _ Hu) as [decl Hd]. exists decl. split; [done|].
  destruct (Hwait u decl Hd) as (r & Hr & Hreq & Hk).
  apply blocked_true. exists r. split; [|done]. simpl.
  apply list_elem_of_filter. by split.
Qed.

(** X12.  The loop needs at most one round for each pending unit: a run
    that has not returned or raised after more rounds than there are
    pending units never does, however many rounds it is given. *)
Theorem unfinished_run_never_finishes (fuel : nat) : ∀ st : sched_state V,
  length (funcnames st) < fuel →
  while_p fuel st = OutOfFuel →
  ∀ fuel', while_p fuel' st = OutOfFuel.
Proof.
  induction fuel as [|fuel IH]; intros st Hlen Hw fuel'; [lia|].
  destruct fuel' as [|fuel']; [done|]. simpl in *.
  case_bool_decide as Hpos; [|done].
  destruct (round_p st) as [[[]|e] st1] eqn:Hr; [|done].
  destruct (round_progress _ _ Hr) as [Hlt|[Hst Hsame]].
  - apply IH; [lia|done].
  - apply stalled_never_returns; [done|]. rewrite Hsame.
    destruct (funcnames st); [simpl in Hpos; lia|done].
Qed.
End progress_properties.

Lemma nothing_runnable_never_returns_witness :
  call_custom_functions cycle_defs ∅ ["x"; "y"] ["x"; "y"] cycle_table 7
    = OutOfFuel.
Proof.
  apply (nothing_runnable_never_returns cycle_defs ∅ ["x"; "y"] cycle_table
           ["x"; "y"] 7).
  - by intros r Hr _.
  - vm_compute. discriminate.
  - intros u decl Hd. unfold cycle_table in Hd. simpl in Hd.
    repeat case_decide; simplify_eq; simpl;
      [exists "y"|exists "x"]; (split; [|split; [|apply lookup_empty]]);
      apply list_elem_of_In; simpl; tauto.
Defined.

Lemma unfinished_run_never_finishes_witness :
  while_funcnames cycle_defs ∅ cycle_table 3
    (initial_state ∅ ["x"; "y"] cycle_table) = OutOfFuel ∧
  ∀ fuel',
    while_funcnames cycle_defs ∅ cycle_table fuel'
      (initial_state ∅ ["x"; "y"] cycle_table) = OutOfFuel.
Proof.
  assert (Hw : while_funcnames cycle_defs ∅ cycle_table 3
                 (initial_state ∅ ["x"; "y"] cycle_table) = OutOfFuel)
    by (vm_compute; reflexivity).
  split; [exact Hw|].
  apply (unfinished_run_never_finishes cycle_defs ∅ cycle_table 3
           (initial_state ∅ ["x"; "y"] cycle_table)); [vm_compute; lia|exact Hw].
Defined.

(** ** What the extraction hands to the scheduler *)

Section extraction_properties.
Context {W : Type} (py_eval : string → eff W (list string)).

Lemma extract_pair_well_formed (line next : string) (st st' : extractor_state)
    (w w' : W) :
  world_independent py_eval → well_formed_extraction st →
  extract_pair py_eval line next st w = (Return st', w') →
  well_formed_extraction st'.
Proof.
  intros Hind Hwf. destruct st as [[d rq] pv].
  destruct (is_decorated_def line next) eqn:Hdec.
  2:{ unfold extract_pair. rewrite Hdec. by intros [= <- _]. }
  rewrite extract_pair_decorated by done.
  destruct (parse myFeature_format (strip line)) as [nm|] eqn:Hp; [|done].
  destruct (parse_myFeature_named _ _ Hp) as (rt & pt & Hrt & Hpt).
  rewrite Hrt, Hpt.
  pose proof (Hind rt w) as Hr. pose proof (Hind pt) as Hq.
  destruct (py_eval rt w) as [[reqs|e] w1]; [|done].
  specialize (Hq w1).
  destruct (py_eval pt w1) as [[provs|e] w2]; [|done].
  destruct (named _ _ w2) as [[funcname|e] w2']; [|done].
  specialize (Hr w2').
  destruct (py_eval rt w2') as [[reqs'|e] w3]; [|done].
  specialize (Hq w3).
  destruct (py_eval pt w3) as [[provs'|e] w4]; [|done].
  simpl in Hr, Hq. injection Hr as <-. injection Hq as <-.
  intros [= <- _]. destruct Hwf as (Hkeys & _ & _ & Hin).
  split; [|split; [unfold list_set; apply NoDup_elements|
           split; [unfold list_set; apply NoDup_elements|]]].
  - rewrite dict_keys_setitem. case_decide as Hk; [done|].
    apply NoDup_app. split; [done|]. split; [|apply NoDup_singleton].
    intros x Hx ->%list_elem_of_singleton. done.
  - intros u decl Hu. destruct (decide (u = funcname)) as [->|Hne].
    + rewrite dict_getitem_setitem in Hu. injection Hu as <-. simpl.
      split; intros x Hx; rewrite elem_of_list_set, elem_of_app, elem_of_list_set;
        by right.
    + rewrite dict_getitem_setitem_ne in Hu by done.
      destruct (Hin u decl Hu) as [Hr Hq].
      split; intros x Hx; rewrite elem_of_list_set, elem_of_app; left;
        [by apply Hr|by apply Hq].
Qed.

Lemma extract_lines_well_formed (all_lines : list string) :
  world_independent py_eval →
  ∀ (st st' : extractor_state) (w w' : W),
    well_formed_extraction st →
    extract_lines py_eval all_lines st w = (Return st', w') →
    well_formed_extraction st'.
Proof.
  intros Hind. induction all_lines as [|line rest IH]; intros st st' w w' Hwf.
  { by intros [= <- _]. }
  destruct rest as [|next rest]; [by intros [= <- _]|].
  change (extract_lines py_eval (line :: next :: rest) st w) with
    (eff_bind (extract_pair py_eval line next st)
       (λ st1, extract_lines py_eval (next :: rest) st1) w).
  unfold eff_bind.
  destruct (extract_pair py_eval line next st w) as [[st1|e] w1] eqn:Hpair; [|done].
  apply IH. by apply (extract_pair_well_formed line next st st1 w w1).
Qed.

Lemma parse_for_req_prov_params_well_formed (script_text : string)
    (st : extractor_state) (w w' : W) :
  world_independent py_eval →
  parse_for_req_prov_params py_eval script_text w = (Return st, w') →
  well_formed_extraction st.
Proof.
  intros Hind. apply (extract_lines_well_formed _ Hind).
  repeat split; try apply NoDup_nil_2; done.
Qed.


(** X14.  Extraction and scheduling together: when the script is read
    with such an evaluator and its decorators promise what its annotations
    say, a run of [execute_functions_in_order] that returns has a value
    for every name that an entry of the table declares as provided. *)
Theorem execute_returns_every_provided {V : Type}
    (custom_feature_defs : string → option (myFeature.t * myFeature.callable V))
    (script_text : string) (features_already_known : gmap string V)
    (fnames_req_prov_dict : decl_table)
    (all_required_params all_provided_params : list string)
    (fuel : nat) (w w' w'' : W) (returned : gmap string V) :
  world_independent py_eval →
  parse_for_req_prov_params py_eval script_text w =
    (Return (fnames_req_prov_dict, all_required_params, all_provided_params), w') →
  decorators_agree custom_feature_defs fnames_req_prov_dict →
  execute_functions_in_order py_eval custom_feature_defs script_text
    features_already_known fuel w = (Returns returned, w'') →
  ∀ funcname decl x,
    dict_getitem fnames_req_prov_dict funcname = Some decl → x ∈ provides decl →
    is_Some (returned !! x).
Proof.
  intros Hind Hparse Hagree. unfold execute_functions_in_order. rewrite Hparse.
  intros [= Hcall _].
  pose proof (parse_for_req_prov_params_well_formed _ _ _ _ Hind Hparse)
    as (Hkeys & _).
  unfold call_custom_functions in Hcall.
  destruct (check_all_provided _ _); [|done].
  destruct (while_funcnames _ _ _ fuel _) as [final| |] eqn:Hw; [|done..].
  injection Hcall as <-.
  exact (final_state_has_provided custom_feature_defs features_already_known
           all_required_params fnames_req_prov_dict fuel final Hkeys Hagree Hw).
Qed.
End extraction_properties.

Lemma pure_eval_world_independent (ev : string → result (list string)) :
  world_independent (pure_eval ev).
Proof. by intros text w w'. Qed.

Lemma mean_decorators_agree :
  decorators_agree mean_defs [("mean", ReqsProvs ["t"; "m"] ["avg"])].
Proof.
  intros funcname decl self f Hd Hdef. simpl in Hd.
  repeat case_decide; simplify_eq; vm_compute in Hdef; simplify_eq; done.
Qed.


Lemma execute_returns_every_provided_witness :
  execute_functions_in_order (pure_eval eval_list_display) mean_defs script_mean
    {["t" := 1; "m" := 2]} 3 () = (Returns {["avg" := 1]}, ()) ∧
  ∀ funcname decl x,
    dict_getitem [("mean", ReqsProvs ["t"; "m"] ["avg"])] funcname = Some decl →
    x ∈ provides decl →
    is_Some (({["avg" := 1]} : gmap string nat) !! x).
Proof.
  assert (Hrun : execute_functions_in_order (pure_eval eval_list_display)
                   mean_defs script_mean {["t" := 1; "m" := 2]} 3 () =
                 (Returns {["avg" := 1]}, ())) by (vm_compute; reflexivity).
  split; [exact Hrun|].
  apply (execute_returns_every_provided (pure_eval eval_list_display) mean_defs
           script_mean {["t" := 1; "m" := 2]}
           [("mean", ReqsProvs ["t"; "m"] ["avg"])]
           (list_set ["t"; "m"]) (list_set ["avg"]) 3 () () ());
    [apply pure_eval_world_independent|vm_compute; reflexivity|
     exact mean_decorators_agree|exact Hrun].
Defined.

(** ** What an isolated run leaves on the host *)

Lemma append_String (c : ascii) (a b : string) :
  String c a +:+ b = String c (a +:+ b).
Proof. reflexivity. Qed.

Lemma prefix_append (a b : string) : String.prefix a (a +:+ b) = true.
Proof.
  induction a as [|c a IH]; [by destruct b|].
  rewrite append_String. simpl. by destruct (Ascii.ascii_dec c c).
Qed.

Lemma below_path_join (dir name : string) : below dir (path_join dir name) = true.
Proof.
  unfold below, path_join.
  replace (dir +:+ "/" +:+ name) with ((dir +:+ "/") +:+ name).
  - apply prefix_append.
  - induction dir as [|c dir IH]; [done|]. rewrite !append_String. by f_equal.
Qed.

Lemma rev_app_length (s1 s2 : string) :
  String.length (String.rev_app s1 s2) = String.length s1 + String.length s2.
Proof.
  revert s2. induction s1 as [|c s1 IH]; intros s2; [done|].
  simpl. rewrite IH. simpl. lia.
Qed.

Lemma rev_length (s : string) : String.length (String.rev s) = String.length s.
Proof. unfold String.rev. rewrite rev_app_length. simpl. lia. Qed.

Lemma append_length (a b : string) :
  String.length (a +:+ b) = String.length a + String.length b.
Proof.
  induction a as [|c a IH]; [done|]. rewrite append_String. simpl. by rewrite IH.
Qed.

Lemma prefix_length (a b : string) :
  String.prefix a b = true → String.length a ≤ String.length b.
Proof.
  revert b. induction a as [|c a IH]; intros b; simpl; [lia|].
  destruct b as [|c' b]; simpl; [done|].
  destruct (Ascii.ascii_dec c c'); [|done].
  intros Hp. apply IH in Hp. lia.
Qed.

Lemma below_longer (dir p : string) :
  below dir p = true → String.length dir < String.length p.
Proof.
  unfold below. intros Hp%prefix_length. rewrite append_length in Hp.
  simpl in Hp. lia.
Qed.

(** A directory above a path is a shorter text. *)
Lemma directories_above_go_shorter (rest : string) : ∀ (seen p : string),
  p ∈ directories_above_go seen rest →
  String.length p < String.length seen + String.length rest.
Proof.
  induction rest as [|c rest IH]; intros seen p; simpl.
  { by intros ?%elem_of_nil. }
  assert (Hgo : p ∈ directories_above_go (String c seen) rest →
                String.length p < String.length seen + S (String.length rest)).
  { intros Hp%IH. simpl in Hp. lia. }
  case_decide as Hc; [|done].
  destruct seen as [|last seen]; [done|].
  destruct (bool_decide (last = "/"%char) || negb (has_component rest)); [done|].
  intros [->|Hp]%elem_of_cons; [|by apply Hgo].
  rewrite rev_length. lia.
Qed.

Lemma directories_above_shorter (name p : string) :
  p ∈ directories_above name → String.length p < String.length name.
Proof. intros Hp%directories_above_go_shorter. simpl in Hp. lia. Qed.

Lemma create_missing_spec (nearest_first : list string) (fs : gset string) p :
  (p ∈ fs → p ∈ create_missing nearest_first fs) ∧
  (p ∈ create_missing nearest_first fs → p ∈ fs ∨ p ∈ nearest_first).
Proof.
  induction nearest_first as [|dir above IH]; simpl; [by auto|].
  case_decide as Hin; [by auto|]. rewrite elem_of_union, elem_of_singleton.
  destruct IH as [IH1 IH2]. split; [by auto|].
  intros [->|[Hp|Hp]%IH2]; [right; by left|by left|right; by right].
Qed.

(** When the nearest directory above exists, nothing is made. *)
Lemma create_missing_nearest (nearest_first : list string) (fs : gset string)
    (parent : string) :
  head nearest_first = Some parent → parent ∈ fs →
  create_missing nearest_first fs = fs.
Proof.
  destruct nearest_first as [|dir above]; [done|]. intros [= ->] Hin.
  simpl. by rewrite decide_True.
Qed.

Section host_properties.
Context {D V Client : Type}.
Context (PROJECT_PATH_LINK PROJECT_PATH TMP_CUSTOM_FEATS_FOLDER : string).
Context (uuid4_str10 : eff (host D) string).
Context (get_docker_client : eff (host D) Client).
Context (create_container : Client → string → string → eff (host D) string).
Context (start wait logs : Client → string → eff (host D) unit).
Context (docker_copy : Client → string → string → string → eff (host D) unit).
Context (load_results : string → eff (host D) (gmap string V)).
Context (remove_container : Client → string → eff (host D) unit).

(** The files that [remove_tmp_files] leaves. *)
Lemma remove_tmp_files_files (path_to_tmp_dir : string) (w : host D) (p : string) :
  p ∈ files (remove_tmp_files TMP_CUSTOM_FEATS_FOLDER path_to_tmp_dir w).2 ↔
  p ∈ files w ∧ p ≠ path_to_tmp_dir ∧ below path_to_tmp_dir p = false ∧
  p ≠ path_join TMP_CUSTOM_FEATS_FOLDER "custom_feature_defs.py" ∧
  p ≠ path_join TMP_CUSTOM_FEATS_FOLDER "custom_feature_defs.pyc" ∧
  p ≠ path_join TMP_CUSTOM_FEATS_FOLDER "__init__.pyc".
Proof.
  simpl. rewrite !elem_of_difference, elem_of_filter, !elem_of_singleton.
  destruct (below path_to_tmp_dir p); simpl; intuition congruence.
Qed.

Lemma make_tmp_dir_returned (path_to_tmp_dir : string) (w w' : host D) :
  make_tmp_dir PROJECT_PATH_LINK PROJECT_PATH uuid4_str10 w =
    (Return path_to_tmp_dir, w') →
  (path_to_tmp_dir ∉ files (uuid4_str10 w).2) ∧
  files w' =
    {[path_to_tmp_dir]} ∪
    create_missing (reverse (directories_above path_to_tmp_dir))
      (files (uuid4_str10 w).2).
Proof.
  unfold make_tmp_dir, makedirs.
  destruct (uuid4_str10 w) as [[name|e] w0]; [|done].
  case_decide as Hin; [done|]. by intros [= <- <-].
Qed.

Lemma copy_data_to_tmp_dir_returned (path_to_tmp_dir script_fpath : string)
    (features_already_known : gmap string V) (w w' : host D) :
  copy_data_to_tmp_dir path_to_tmp_dir script_fpath features_already_known w =
    (Return (), w') →
  script_fpath ∈ files w ∧
  files w' =
    {[path_join path_to_tmp_dir "__init__.py"]} ∪
    ({[path_join path_to_tmp_dir "features_already_known.pkl"]} ∪
     ({[path_join path_to_tmp_dir "custom_feature_defs.py"]} ∪ files w)).
Proof.
  unfold copy_data_to_tmp_dir, eff_bind, add_file.
  case_decide as Hin; [|done]. by intros [= <-].
Qed.

(** X15.  When the script to copy is missing, the call raises the IOError
    of the copy and nothing removes the staging directory it has just
    made: the directory stays on the host. *)
Theorem staging_failure_leaks_directory
    (script_fpath : string) (features_already_known : gmap string V)
    (container_name path_to_tmp_dir : string) (w w0 w1 : host D) :
  generate_random_str uuid4_str10 w = (Return container_name, w0) →
  make_tmp_dir PROJECT_PATH_LINK PROJECT_PATH uuid4_str10 w0 =
    (Return path_to_tmp_dir, w1) →
  script_fpath ∉ files w1 →
  docker_extract_features PROJECT_PATH_LINK PROJECT_PATH TMP_CUSTOM_FEATS_FOLDER
    uuid4_str10 get_docker_client create_container start wait logs docker_copy
    load_results remove_container script_fpath features_already_known w =
    (Raise (BuiltinError "IOError" script_fpath), w1) ∧
  path_to_tmp_dir ∈ files w1 ∧
  (path_to_tmp_dir ∉ files (uuid4_str10 w0).2).
Proof.
  intros Hname Hdir Hmissing.
  destruct (make_tmp_dir_returned _ _ _ Hdir) as [Hnew Hfiles].
  split; [|split; [rewrite Hfiles; by apply elem_of_union_l, elem_of_singleton|done]].
  unfold docker_extract_features, eff_bind. rewrite Hname, Hdir.
  unfold copy_data_to_tmp_dir, eff_bind. by rewrite decide_False.
Qed.

(** X16.  What an isolated run leaves of its staging.  When making the
    random names and running the container change no file outside the
    staging directory, and the host had nothing below that directory,
    the files after the call are those before it and the directories
    above the staging directory that [os.makedirs] had to make (none when
    the nearest one existed), less the three files of the shared folder
    [TMP_CUSTOM_FEATS_FOLDER] that the cleanup deletes whoever put them
    there; the caller gets what the container step returned or raised. *)
Theorem isolated_run_leaves_directories_above
    (script_fpath : string) (features_already_known : gmap string V)
    (container_name path_to_tmp_dir : string) (w w0 w1 w2 : host D) :
  let run :=
    extract_feats_in_docker_container PROJECT_PATH_LINK PROJECT_PATH
      get_docker_client create_container start wait logs docker_copy
      load_results remove_container container_name path_to_tmp_dir w2 in
  generate_random_str uuid4_str10 w = (Return container_name, w0) →
  make_tmp_dir PROJECT_PATH_LINK PROJECT_PATH uuid4_str10 w0 =
    (Return path_to_tmp_dir, w1) →
  copy_data_to_tmp_dir path_to_tmp_dir script_fpath features_already_known w1 =
    (Return (), w2) →
  (∀ w, files (uuid4_str10 w).2 = files w) →
  (∀ p, p ∈ files w → below path_to_tmp_dir p = false) →
  (∀ p, p ≠ path_to_tmp_dir → below path_to_tmp_dir p = false →
        (p ∈ files run.2 ↔ p ∈ files w2)) →
  ∃ w',
    docker_extract_features PROJECT_PATH_LINK PROJECT_PATH TMP_CUSTOM_FEATS_FOLDER
      uuid4_str10 get_docker_client create_container start wait logs docker_copy
      load_results remove_container script_fpath features_already_known w =
      (run.1, w') ∧
    (∀ p, p ∈ files w' ↔
          p ∈ create_missing (reverse (directories_above path_to_tmp_dir))
                (files w) ∧
          p ≠ path_join TMP_CUSTOM_FEATS_FOLDER "custom_feature_defs.py" ∧
          p ≠ path_join TMP_CUSTOM_FEATS_FOLDER "custom_feature_defs.pyc" ∧
          p ≠ path_join TMP_CUSTOM_FEATS_FOLDER "__init__.pyc") ∧
    (∀ p, p ∈ create_missing (reverse (directories_above path_to_tmp_dir))
                (files w) →
          p ∈ files w ∨ p ∈ directories_above path_to_tmp_dir) ∧
    (∀ parent,
       head (reverse (directories_above path_to_tmp_dir)) = Some parent →
       parent ∈ files w →
       ∀ p, p ∈ files w' ↔
            p ∈ files w ∧
            p ≠ path_join TMP_CUSTOM_FEATS_FOLDER "custom_feature_defs.py" ∧
            p ≠ path_join TMP_CUSTOM_FEATS_FOLDER "custom_feature_defs.pyc" ∧
            p ≠ path_join TMP_CUSTOM_FEATS_FOLDER "__init__.pyc").
Proof.
  intros run Hname Hdir Hcopy Huuid Hbelow Hframe. subst run.
  destruct (extract_feats_in_docker_container _ _ _ _ _ _ _ _ _ _ _ _ w2)
    as [r wr] eqn:Hrun. simpl in Hframe.
  exists (remove_tmp_files TMP_CUSTOM_FEATS_FOLDER path_to_tmp_dir wr).2.
  split.
  { unfold docker_extract_features, eff_bind. rewrite Hname, Hdir, Hcopy.
    unfold try_finally. by rewrite Hrun. }
  destruct (make_tmp_dir_returned _ _ _ Hdir) as [Hnew Hfiles1].
  destruct (copy_data_to_tmp_dir_returned _ _ _ _ _ Hcopy) as [_ Hfiles2].
  assert (Hw0 : files w0 = files w).
  { unfold generate_random_str in Hname. rewrite <- (Huuid w). by rewrite Hname. }
  rewrite Huuid, Hw0 in Hnew, Hfiles1.
  set (made := create_missing (reverse (directories_above path_to_tmp_dir))
                 (files w)) in *.
  assert (Hmade : ∀ p, p ∈ made → p ∈ files w ∨ p ∈ directories_above path_to_tmp_dir).
  { intros p Hp. apply create_missing_spec in Hp as [Hp|Hp]; [by left|right].
    by apply elem_of_reverse. }
  assert (Houtside : ∀ p, p ∈ made →
            p ≠ path_to_tmp_dir ∧ below path_to_tmp_dir p = false).
  { intros p Hp. apply Hmade in Hp as [Hp|Hp].
    - split; [by intros ->|by apply Hbelow].
    - apply directories_above_shorter in Hp. split; [intros ->; lia|].
      destruct (below path_to_tmp_dir p) eqn:Hb; [|done].
      apply below_longer in Hb. lia. }
  assert (Hexact : ∀ p,
            p ∈ files (remove_tmp_files TMP_CUSTOM_FEATS_FOLDER path_to_tmp_dir wr).2 ↔
            p ∈ made ∧
            p ≠ path_join TMP_CUSTOM_FEATS_FOLDER "custom_feature_defs.py" ∧
            p ≠ path_join TMP_CUSTOM_FEATS_FOLDER "custom_feature_defs.pyc" ∧
            p ≠ path_join TMP_CUSTOM_FEATS_FOLDER "__init__.pyc").
  { intros p. rewrite remove_tmp_files_files. split.
    - intros (Hp & Hne & Hb & Hshared). split; [|done].
      apply (Hframe p Hne Hb) in Hp. rewrite Hfiles2, Hfiles1 in Hp.
      rewrite !elem_of_union, !elem_of_singleton in Hp.
      destruct Hp as [->|[->|[->|[->|Hp]]]]; [| | |done|done];
        by rewrite below_path_join in Hb.
    - intros (Hp & Hshared). destruct (Houtside p Hp) as [Hne Hb].
      split; [|by auto].
      apply (Hframe p Hne Hb). rewrite Hfiles2, Hfiles1.
      rewrite !elem_of_union. auto. }
  split; [done|]. split; [done|].
  intros parent Hhead Hparent p. rewrite Hexact. unfold made.
  by rewrite (create_missing_nearest _ _ parent Hhead Hparent).
Qed.
End host_properties.

Lemma staging_failure_leaks_directory_witness :
  crashing_run "/scripts/missing.py" sample_host =
    (Raise (BuiltinError "IOError" "/scripts/missing.py"),
     Host ({["/proj/tmp/0123456789"]} ∪ ({["/proj/tmp"]} ∪ files sample_host)) ()) ∧
  "/proj/tmp/0123456789" ∈
    ({["/proj/tmp/0123456789"]} ∪ ({["/proj/tmp"]} ∪ files sample_host)) ∧
  ("/proj/tmp/0123456789" ∉ files sample_host).
Proof.
  assert (Hmissing : "/scripts/missing.py" ∉
            files (Host ({["/proj/tmp/0123456789"]} ∪
                         ({["/proj/tmp"]} ∪ files sample_host)) ()))
    by (apply (bool_decide_unpack _); vm_compute; exact I).
  assert (Hdir : make_tmp_dir "/link" "/proj" sample_uuid sample_host =
            (Return "/proj/tmp/0123456789",
             Host ({["/proj/tmp/0123456789"]} ∪
                   ({["/proj/tmp"]} ∪ files sample_host)) ()))
    by (vm_compute; reflexivity).
  exact (staging_failure_leaks_directory (V := nat) "/link" "/proj" "/feats"
           sample_uuid (eff_ret ()) (λ _ _ _, eff_ret "cid")
           (λ _ _, eff_raise crash) (λ _ _, eff_ret ()) (λ _ _, eff_ret ())
           (λ _ _ _ _, eff_ret ()) (λ _, eff_ret ∅) (λ _ _, eff_ret ())
           "/scripts/missing.py" ∅ "0123456789" "/proj/tmp/0123456789"
           sample_host sample_host _ eq_refl Hdir Hmissing).
Defined.

(** On a host that has /proj and no /proj/tmp, the directory /proj/tmp
    stays after the run. *)
Lemma isolated_run_leaves_directories_above_witness :
  ∃ w',
    crashing_run "/scripts/feats.py" sample_host = (Raise crash, w') ∧
    directories_above "/proj/tmp/0123456789" = ["/proj"; "/proj/tmp"] ∧
    ("/proj/tmp" ∈ files w') ∧
    ∀ p, p ∈ files w' ↔
         p ∈ create_missing ["/proj/tmp"; "/proj"] (files sample_host) ∧
         p ≠ path_join "/feats" "custom_feature_defs.py" ∧
         p ≠ path_join "/feats" "custom_feature_defs.pyc" ∧
         p ≠ path_join "/feats" "__init__.pyc".
Proof.
  pose (w1 := Host ({["/proj/tmp/0123456789"]} ∪
                    ({["/proj/tmp"]} ∪ files sample_host)) () : host unit).
  pose (w2 := Host ({["/proj/tmp/0123456789/__init__.py"]} ∪
                    ({["/proj/tmp/0123456789/features_already_known.pkl"]} ∪
                     ({["/proj/tmp/0123456789/custom_feature_defs.py"]} ∪
                      files w1))) () : host unit).
  destruct (isolated_run_leaves_directories_above (V := nat) "/link" "/proj" "/feats"
              sample_uuid (eff_ret ()) (λ _ _ _, eff_ret "cid")
              (λ _ _, eff_raise crash) (λ _ _, eff_ret ()) (λ _ _, eff_ret ())
              (λ _ _ _ _, eff_ret ()) (λ _, eff_ret ∅) (λ _ _, eff_ret ())
              "/scripts/feats.py" ∅ "0123456789" "/proj/tmp/0123456789"
              sample_host sample_host w1 w2)
    as (w' & Hrun & Hfiles & _).
  - reflexivity.
  - vm_compute. reflexivity.
  - vm_compute. reflexivity.
  - reflexivity.
  - intros p Hp. unfold sample_host in Hp. simpl in Hp.
    apply elem_of_union in Hp as [Hp|Hp]; apply elem_of_singleton in Hp;
      subst p; vm_compute; reflexivity.
  - intros p _ _. reflexivity.
  - exists w'. split; [exact Hrun|]. split; [vm_compute; reflexivity|].
    split; [|exact Hfiles].
    apply Hfiles. split; [|repeat split; discriminate].
    apply (bool_decide_unpack _). vm_compute. exact I.
Defined.

(** ** Which way the script is run, and repeated calls *)

Section dispatch_properties.
Context {V : Type}.
Context (np_array : V → V) (py_len : V → nat).
Context (assemble_test_data : result (gmap string V)).
Context (is_running_in_docker docker_images_available no_docker : bool).
Context (docker_images_available_again : bool).
Context (run_in_process run_in_container : string → gmap string V → result (gmap string V)).

(** X17.  The choice among the ways of going on, in
    [generate_custom_features] and in [verify_new_script]: inside a
    container, or with MLTSP_NO_DOCKER set, the script is run in process
    whatever [docker_images_available()] answers; otherwise it is run in
    a container when the first call of [docker_images_available()]
    answers True.  When it answers False the second call decides: on
    False the call raises "Docker image not available."; on True (the
    image has appeared between the two calls) no branch is taken, so
    [generate_custom_features] reads [all_new_features] unbound and
    [verify_new_script] returns the empty dictionary it starts from.
    Apart from that last case the trial run is the choice that
    [generate_custom_features] makes outside a container, on the sample
    data. *)
Theorem script_dispatch (script_fpath : string) :
  (∀ known,
     run_script is_running_in_docker docker_images_available no_docker
       docker_images_available_again run_in_process run_in_container
       script_fpath known =
     if is_running_in_docker || no_docker then run_in_process script_fpath known
     else if docker_images_available then run_in_container script_fpath known
     else if docker_images_available_again
          then Raise (BuiltinError "UnboundLocalError" "all_new_features")
     else Raise (Exception "Docker image not available.")) ∧
  verify_new_script assemble_test_data docker_images_available no_docker
    docker_images_available_again run_in_process run_in_container script_fpath =
  match assemble_test_data with
  | Raise e => Raise e
  | Return known =>
      if no_docker || docker_images_available ||
         negb docker_images_available_again
      then run_script false docker_images_available no_docker
             docker_images_available_again run_in_process run_in_container
             script_fpath known
      else Return ∅
  end.
Proof.
  unfold run_script, verify_new_script. split.
  - intros known.
    by destruct is_running_in_docker, docker_images_available, no_docker,
                docker_images_available_again.
  - destruct assemble_test_data as [known|e]; [|done].
    by destruct docker_images_available, no_docker,
                docker_images_available_again.
Qed.

(** X18.  Lines 565-573 done a second time on the dictionary they have
    left: when converting an array again changes nothing and the second
    [m] is as long as the first, the dictionary stays as it is,
    whatever the second [t] and [m] are (the same [e] being given). *)
Theorem filling_twice_changes_nothing (t m t2 m2 : V) (e : option V)
    (d : gmap string V) :
  (∀ v, np_array (np_array v) = np_array v) →
  py_len m2 = py_len m →
  fill_known np_array py_len t2 m2 e (fill_known np_array py_len t m e d) =
  fill_known np_array py_len t m e d.
Proof.
  intros Hidem Hlen. apply map_eq. intros k.
  rewrite (fill_known_lookup np_array py_len t2 m2 e (fill_known _ _ _ _ _ _)).
  rewrite !fill_known_lookup. simpl. rewrite Hlen.
  repeat case_decide; simplify_eq; simpl; rewrite ?Hidem; try done.
  destruct (d !! "e") as [v|]; simpl; [by rewrite Hidem|].
  destruct e as [e'|]; [|done].
  destruct (bool_decide _); simpl; [by rewrite Hidem|done].
Qed.
End dispatch_properties.

Lemma filling_twice_changes_nothing_witness :
  fill_known sample_array sample_len (false, [9]) (false, [4; 5; 6])
    (Some (false, [5; 6; 7]))
    (fill_known sample_array sample_len (false, [1; 2; 3]) (false, [1; 23; 2])
       (Some (false, [5; 6; 7])) {["redshift" := (false, [7])]}) =
  fill_known sample_array sample_len (false, [1; 2; 3]) (false, [1; 23; 2])
    (Some (false, [5; 6; 7])) {["redshift" := (false, [7])]}.
Proof.
  apply (filling_twice_changes_nothing sample_array sample_len
           (false, [1; 2; 3]) (false, [1; 23; 2]) (false, [9]) (false, [4; 5; 6])
           (Some (false, [5; 6; 7])) {["redshift" := (false, [7])]});
    [by intros [b l]|reflexivity].
Defined.
